(** * PostgresRunStorage: a shallow embedding of
    [dagster_postgres/run_storage/run_storage.py]

    The storage class talks to PostgreSQL through SQLAlchemy.  The embedding
    has three layers:

    - [Sql]: the relational state (tables with their unique indexes,
      NOT NULL columns and length limits) and the one statement form the
      class builds,
      [INSERT ... VALUES ... ON CONFLICT (cols) DO UPDATE SET ... RETURNING ...],
      with PostgreSQL's evaluation of it;
    - [Py]: the few dynamically typed values [kvs_set] may be handed, and the
      parameter check it starts with;
    - [RunStorage]: the methods of [PostgresRunStorage], written in a small
      state-and-exception monad over the shared database. *)

From stdpp Require Import gmap strings list fin_maps.
From Stdlib Require Import ZArith.

Open Scope Z_scope.
Open Scope string_scope.
Open Scope list_scope.

(** What a call can raise. *)
Inductive Error :=
| CheckError               (* dagster._check: a parameter of the wrong type *)
| AttributeError           (* method looked up on an object that lacks it *)
| KeyError                 (* dict subscript on an absent key *)
| ValueError               (* a parameter the driver cannot adapt; a
                              timestamp outside the years of datetime *)
| UndefinedTable           (* relation does not exist *)
| DuplicateTable           (* relation already exists *)
| InvalidColumnReference   (* no unique index matches ON CONFLICT *)
| NotNullViolation
| StringDataRightTruncation (* value too long for type character varying(n) *)
| UniqueViolation
| CardinalityViolation.    (* ON CONFLICT DO UPDATE cannot affect row a second time *)

#[global] Instance Error_eq_dec : EqDecision Error.
Proof. solve_decision. Defined.

(* ===================================================================== *)
(** ** The relational model *)
(* ===================================================================== *)

Module Sql.

(** Bound parameter values.  A text is given by its encoded bytes; a
    [datetime] is counted in microseconds since the epoch, the resolution
    Python's [datetime] has. *)
Inductive Value :=
| VText (s : string)
| VInteger (z : Z)
| VBoolean (b : bool)
| VTimestamp (t : Z).

#[global] Instance Value_eq_dec : EqDecision Value.
Proof. solve_decision. Defined.

(** A row maps column names to values; an absent column is NULL.  Columns
    the server fills in by itself (a serial surrogate key) are left out. *)
Abbreviation Row := (gmap string Value).

(** What a table declaration contributes: its name, the column lists that
    carry a unique index, the NOT NULL columns, and the columns whose type
    bounds the length of a text ([VARCHAR(n)]), each with its bound. *)
Record Schema := {
  name : string;
  unique_indexes : list (list string);
  not_null : list string;
  max_length : list (string * nat)
}.

Record Table := {
  schema : Schema;
  rows : list Row
}.

(** Right-hand sides of [SET]: a bound parameter ([None] binds NULL), or a
    column of the row proposed for insertion
    ([insert_stmt.excluded.<column>]). *)
Inductive Expr :=
| Bind (v : option Value)
| Excluded (column : string).

Record OnConflictDoUpdate := {
  index_elements : list string;
  set_ : list (string * Expr)
}.

(** [postgresql.insert(table).values(...).on_conflict_do_update(...).returning(...)] *)
Record Insert := {
  table : string;
  values : list Row;
  on_conflict : option OnConflictDoUpdate;
  returning : list string
}.

(** *** Statement builders, in the order the source chains them *)

Definition pg_insert (t : Schema) : Insert :=
  {| table := name t; values := []; on_conflict := None; returning := [] |}.

(** A dictionary of bound parameters as a row: a column bound to [None]
    is NULL. *)
Definition row_of (kw : list (string * option Value)) : Row :=
  list_to_map (omap (λ cv, pair cv.1 <$> cv.2) kw).

(** [.values(col=v, ...)]: one proposed row. *)
Definition values_kw (kw : list (string * option Value)) (i : Insert) : Insert :=
  {| table := table i; values := [row_of kw];
     on_conflict := on_conflict i; returning := returning i |}.

(** [.values([{...}, ...])]: one proposed row per dictionary.  SQLAlchemy
    takes an empty list for "no values given", which PostgreSQL receives as
    [INSERT ... DEFAULT VALUES]: one proposed row with every column at its
    default. *)
Definition values_multi (l : list (list (string * option Value))) (i : Insert) : Insert :=
  {| table := table i;
     values := match l with [] => [∅] | _ => row_of <$> l end;
     on_conflict := on_conflict i; returning := returning i |}.

Definition on_conflict_do_update
    (index_elements : list string) (set_ : list (string * Expr)) (i : Insert) : Insert :=
  {| table := table i; values := values i;
     on_conflict := Some {| index_elements := index_elements; set_ := set_ |};
     returning := returning i |}.

Definition with_returning (cols : list string) (i : Insert) : Insert :=
  {| table := table i; values := values i;
     on_conflict := on_conflict i; returning := cols |}.

(** *** What the driver can send *)

Fixpoint has_nul (s : string) : bool :=
  match s with
  | EmptyString => false
  | String a s' => Ascii.eqb a Ascii.zero || has_nul s'
  end.

(** psycopg2 refuses a text parameter that holds a NUL character. *)
Definition adaptable (v : Value) : bool :=
  match v with
  | VText s => negb (has_nul s)
  | _ => true
  end.

Definition row_adaptable (r : Row) : bool :=
  bool_decide (map_Forall (λ _ v, adaptable v = true) r).

(** Every parameter of the statement can be adapted. *)
Definition sendable (stmt : Insert) : bool :=
  forallb row_adaptable (values stmt) &&
  match on_conflict stmt with
  | Some oc => forallb (λ ce, match ce.2 with
                              | Bind (Some v) => adaptable v
                              | _ => true
                              end) (set_ oc)
  | None => true
  end.

(** *** Evaluation *)

(** A text within the bound of its column; other values have no length. *)
Definition within (bound : nat) (v : option Value) : bool :=
  match v with
  | Some (VText s) => (String.length s <=? bound)%nat
  | _ => true
  end.

(** The proposed row respects every length bound of the table. *)
Definition fits (limits : list (string * nat)) (r : Row) : bool :=
  forallb (λ cn, within cn.2 (r !! cn.1)) limits.

(** Two rows collide on an index when they agree on each of its columns;
    NULL never collides. *)
Definition conflicts (cols : list string) (r p : Row) : bool :=
  forallb (λ c, match r !! c, p !! c with
                | Some a, Some b => bool_decide (a = b)
                | _, _ => false
                end) cols.

Definition has_columns (cols : list string) (r : Row) : bool :=
  forallb (λ c, bool_decide (is_Some (r !! c))) cols.

(** Does [r] collide with one of [others] on any of the indexes? *)
Definition violates (indexes : list (list string)) (others : list Row) (r : Row) : bool :=
  existsb (λ cols, existsb (λ r', conflicts cols r' r) others) indexes.

Definition eval (e : Expr) (excluded : Row) : option Value :=
  match e with
  | Bind v => v
  | Excluded c => excluded !! c
  end.

(** The values a [SET] list assigns respect the bounds of their columns. *)
Definition set_fits (limits : list (string * nat)) (set_ : list (string * Expr))
    (excluded : Row) : bool :=
  forallb (λ ce, forallb (λ cn, negb (bool_decide (cn.1 = ce.1)) ||
                                within cn.2 (eval ce.2 excluded)) limits) set_.

(** [SET c1 = e1, c2 = e2, ...] on the existing row [target]. *)
Definition assign (set_ : list (string * Expr)) (excluded target : Row) : Row :=
  foldl (λ r ce, match eval ce.2 excluded with
                 | Some v => <[ce.1 := v]> r
                 | None => delete ce.1 r
                 end) target set_.

(** The proposed rows are taken in order: each is first coerced to the
    column types and checked against NOT NULL, then looked up on the arbiter
    index.  [touched] lists the positions this command has already inserted
    or updated: reaching one of them again is PostgreSQL's cardinality
    violation. *)
Fixpoint upsert_rows (s : Schema) (oc : OnConflictDoUpdate)
    (proposed : list Row) (rs : list Row) (touched : list nat) : Error + list Row :=
  match proposed with
  | [] => inr rs
  | p :: ps =>
      if negb (fits (max_length s) p) then inl StringDataRightTruncation
      else if negb (has_columns (not_null s) p) then inl NotNullViolation
      else
        match list_find (λ r, Is_true (conflicts (index_elements oc) r p)) rs with
        | Some (i, r) =>
            if bool_decide (i ∈ touched) then inl CardinalityViolation
            else if negb (set_fits (max_length s) (set_ oc) p)
            then inl StringDataRightTruncation
            else
              let r' := assign (set_ oc) p r in
              if negb (has_columns (not_null s) r') then inl NotNullViolation
              else if violates (unique_indexes s) (delete i rs) r' then inl UniqueViolation
              else upsert_rows s oc ps (<[i := r']> rs) (i :: touched)
        | None =>
            if violates (unique_indexes s) rs p then inl UniqueViolation
            else upsert_rows s oc ps (rs ++ [p]) (length rs :: touched)
        end
  end.

(** An [INSERT] without a conflict clause. *)
Fixpoint insert_rows (s : Schema) (proposed : list Row) (rs : list Row) : Error + list Row :=
  match proposed with
  | [] => inr rs
  | p :: ps =>
      if negb (fits (max_length s) p) then inl StringDataRightTruncation
      else if negb (has_columns (not_null s) p) then inl NotNullViolation
      else if violates (unique_indexes s) rs p then inl UniqueViolation
      else insert_rows s ps (rs ++ [p])
  end.

(** One statement against the relations of a database.  The statement is
    atomic: an error leaves no trace (the caller keeps the old relations). *)
Definition execute (stmt : Insert) (rel : gmap string Table) : Error + gmap string Table :=
  match rel !! table stmt with
  | None => inl UndefinedTable
  | Some t =>
      let s := schema t in
      let result :=
        match on_conflict stmt with
        | None => insert_rows s (values stmt) (rows t)
        | Some oc =>
            if bool_decide (index_elements oc ∈ unique_indexes s)
            then upsert_rows s oc (values stmt) (rows t) []
            else inl InvalidColumnReference
        end in
      match result with
      | inl e => inl e
      | inr rs => inr (<[table stmt := {| schema := s; rows := rs |}]> rel)
      end
  end.

(** The table invariant a unique index maintains. *)
Definition unique_on (cols : list string) (rs : list Row) : Prop :=
  ∀ i j ri rj, rs !! i = Some ri → rs !! j = Some rj →
    conflicts cols ri rj = true → i = j.

(** A proposed row the table takes, whichever way the arbiter column [c]
    decides: it respects the length bounds, as do the values its [SET] list
    assigns; it fills the NOT NULL columns, and so does any row of its key
    after the [SET]; and it has a key. *)
Definition admissible (s : Schema) (oc : OnConflictDoUpdate) (c : string) (p : Row) : Prop :=
  fits (max_length s) p = true ∧
  set_fits (max_length s) (set_ oc) p = true ∧
  has_columns (not_null s) p = true ∧
  is_Some (p !! c) ∧
  ∀ r : Row, r !! c = p !! c → has_columns (not_null s) (assign (set_ oc) p r) = true.

End Sql.

(* ===================================================================== *)
(** ** Python values and the parameter check *)
(* ===================================================================== *)

Module Py.

(** A [str] is given by its encoded bytes. *)
Inductive Atom :=
| PNone
| PBool (b : bool)
| PInt (z : Z)
| PStr (s : string).

(** The arguments a caller can pass for [pairs]: a scalar, a sequence, or
    a [collections.abc.Mapping], given by what [.items()] yields.  A [dict]
    yields every key once. *)
Inductive Object :=
| Scalar (a : Atom)
| Sequence (l : list Atom)
| Mapping (entries : list (Atom * Atom)).

Inductive Class := str | int | bool_ | NoneType.

(** [bool] is a subclass of [int]. *)
Definition isinstance (a : Atom) (c : Class) : bool :=
  match a, c with
  | PStr _, str => true
  | PInt _, int => true
  | PBool _, int => true
  | PBool _, bool_ => true
  | PNone, NoneType => true
  | _, _ => false
  end.

Definition items (obj : Object) : Error + list (Atom * Atom) :=
  match obj with
  | Mapping entries => inr entries
  | _ => inl AttributeError
  end.

(** The statement parameter a Python value stands for.  Whether the driver
    can adapt it ([Sql.adaptable]: no NUL in a text) is decided when the
    statement is executed, see [RunStorage.conn_execute]. *)
Definition bind_param (a : Atom) : option Sql.Value :=
  match a with
  | PNone => None
  | PBool b => Some (Sql.VBoolean b)
  | PInt z => Some (Sql.VInteger z)
  | PStr s => Some (Sql.VText s)
  end.

(** Modelled from the spec: [dagster._check.mapping_param] is not among the
    sources.  [kvs_set] is specified for "a mapping of string keys to string
    values"; the check accepts exactly the mappings whose every key is an
    instance of [key_type] and every value an instance of [value_type], hands
    the object back, and raises [CheckError] for anything else. *)
Definition mapping_param (obj : Object) (param_name : string)
    (key_type value_type : Class) : Error + Object :=
  match obj with
  | Mapping entries =>
      if forallb (λ kv, isinstance kv.1 key_type && isinstance kv.2 value_type) entries
      then inr obj
      else inl CheckError
  | _ => inl CheckError
  end.

(** The mapping of strings to strings whose [.items()] yields [kvs].  For a
    [dict] the keys [kvs.*1] are pairwise different. *)
Definition str_mapping (kvs : list (string * string)) : Object :=
  Mapping ((λ kv, (PStr kv.1, PStr kv.2)) <$> kvs).

End Py.

(* ===================================================================== *)
(** ** The storage class *)
(* ===================================================================== *)

Module RunStorage.
Import Sql.

(** *** The world outside the process *)

(** The database every store handle of every process shares.
    [migration_markers] is the persisted completion state of the data
    migrations (spec: "keyed by migration name; boolean completion state
    persisted in a table"), as the two base-class methods that read and
    write it see it; the class itself never touches that table. *)
Record Database := {
  relations : gmap string Table;
  migration_markers : gmap string bool
}.

(** What went over a connection, in order. *)
Inductive RoundTrip :=
| GetTableNames
| CreateAll
| CreateTable (t : string)
| StampAlembicRev
| Execute (stmt : Insert)
| SelectMigrationMarker (migration_name : string)
| WriteMigrationMarker (migration_name : string).

Record World := {
  database : Database;
  round_trips : list RoundTrip
}.

(** State and exceptions: a raised error keeps the world it was raised in. *)
Definition M (A : Type) : Type := World → (Error + A) * World.

Definition ret {A} (a : A) : M A := λ w, (inr a, w).

Definition raise {A} (e : Error) : M A := λ w, (inl e, w).

Definition bind {A B} (c : M A) (k : A → M B) : M B :=
  λ w, match c w with
       | (inl e, w') => (inl e, w')
       | (inr a, w') => k a w'
       end.

Definition lift {A} (r : Error + A) : M A :=
  match r with
  | inl e => raise e
  | inr a => ret a
  end.

Notation "'do' x <- c ; k" := (bind c (λ x, k))
  (at level 10, x name, c at level 100, k at level 200,
   format "'[v' 'do'  x  <-  c ; '/' k ']'").

Definition round_trip (q : RoundTrip) : M unit :=
  λ w, (inr tt, {| database := database w; round_trips := round_trips w ++ [q] |}).

Definition get_relations : M (gmap string Table) :=
  λ w, (inr (relations (database w)), w).

Definition put_relations (rel : gmap string Table) : M unit :=
  λ w, (inr tt,
        {| database := {| relations := rel;
                          migration_markers := migration_markers (database w) |};
           round_trips := round_trips w |}).

(** The length bounds of a table of the database (none when it does not
    exist). *)
Definition table_limits (w : World) (t : Schema) : list (string * nat) :=
  match relations (database w) !! name t with
  | Some tb => max_length (schema tb)
  | None => []
  end.

(** *** SQLAlchemy engines *)

(** Of a parsed URL only the query part is looked at, each parameter taken
    with a single string value. *)
Record URL := {
  address : string;
  query : gmap string string
}.

Inductive PoolClass := NullPool | QueuePool.

Record Engine := {
  url : URL;
  isolation_level : string;
  poolclass : option PoolClass;
  pool_size : option Z;
  connect_args : gmap string string;
  pool_recycle : option Z
}.

Record Connection := { engine : Engine }.

(** [inspect(engine).get_table_names()] *)
Definition get_table_names (e : Engine) : M (list string) :=
  do _ <- round_trip GetTableNames ;
  do rel <- get_relations ;
  ret (elements (dom rel)).

(** [conn.execute(stmt)]; the result set is not read by any caller.  The
    driver adapts the parameters first: when it cannot, it raises and
    nothing goes over the connection. *)
Definition conn_execute (conn : Connection) (stmt : Insert) : M unit :=
  if sendable stmt then
    do _ <- round_trip (Execute stmt) ;
    do rel <- get_relations ;
    do rel' <- lift (execute stmt rel) ;
    put_relations rel'
  else raise ValueError.

(** [Table.create(bind)]: [CREATE TABLE], without [IF NOT EXISTS]. *)
Definition Table_create (s : Schema) (e : Engine) : M unit :=
  do _ <- round_trip (CreateTable (name s)) ;
  do rel <- get_relations ;
  match rel !! name s with
  | Some _ => raise DuplicateTable
  | None => put_relations (<[name s := {| schema := s; rows := [] |}]> rel)
  end.

(** [MetaData.create_all(conn)]: every table of the metadata that does not
    exist yet is created; the others are left as they are. *)
Definition create_all (metadata : list Schema) (conn : Connection) : M unit :=
  do _ <- round_trip CreateAll ;
  do rel <- get_relations ;
  put_relations
    (foldl (λ rel s, match rel !! name s with
                     | Some _ => rel
                     | None => <[name s := {| schema := s; rows := [] |}]> rel
                     end) rel metadata).

(** [with conn.begin(): ...] on a connection of an engine created with
    [isolation_level="AUTOCOMMIT"], as all engines of the class are: every
    statement is committed when it is executed, and the block adds nothing
    to its body. *)
Definition transaction {A} (body : M A) : M A := body.

(** Modelled from the spec: [retry_pg_connection_fn] of
    [dagster_postgres.utils] is not among the sources.  It re-runs its
    argument "on transient failures"; the world here has none, so the
    argument runs once. *)
Definition retry_pg_connection_fn {A} (fn : M A) : M A := fn.

(** Modelled from the spec: [retry_pg_creation_fn] of
    [dagster_postgres.utils] is not among the sources.  It retries "the
    whole creation-and-stamp sequence as a unit on transient failure"; with
    no transient failures the sequence runs once. *)
Definition retry_pg_creation_fn {A} (fn : M A) : M A := fn.

(** *** Alembic's revision stamp *)

Definition alembic_version_table : Schema :=
  {| name := "alembic_version"; unique_indexes := [["version_num"]];
     not_null := ["version_num"]; max_length := [("version_num", 32%nat)] |}.

(** Modelled from the spec: [stamp_alembic_rev] of
    [dagster._core.storage.sql] is not among the sources.  It is the
    migration tool's [stamp(revision, connection)]: afterwards the version
    table holds the one row of the stamped revision.  This is the stamp of
    a database that carries no stamp yet, or one the migration scripts
    know. *)
Definition stamp_alembic_rev (rev : string) (conn : Connection) : M unit :=
  do _ <- round_trip StampAlembicRev ;
  do rel <- get_relations ;
  put_relations
    (<["alembic_version" :=
         {| schema := alembic_version_table;
            rows := [ {["version_num" := VText rev]} ] |}]> rel).

Definition stamped_revision (db : Database) : option (list Row) :=
  rows <$> relations db !! "alembic_version".

(** *** The class *)

Section Storage.
(** What the class takes from its collaborators. *)
Context {float : Type}.
(** [utc_datetime_from_timestamp] raises for a timestamp that is no
    [datetime]. *)
Variable utc_datetime_from_timestamp : float → Error + Z.
Variable pg_statement_timeout : Z → string.
Variable make_url : string → URL.
(** The head revision of the alembic scripts [pg_alembic_config(__file__)]
    points at. *)
Variable head : string.
(** The table declarations of [dagster._core.storage.runs]. *)
Variable RunStorageSqlMetadata : list Schema.
Variable DaemonHeartbeatsTable KeyValueStoreTable InstanceInfo : Schema.

(** [daemon_id] is an [Optional[str]]. *)
Record DaemonHeartbeat := {
  timestamp : float;
  daemon_type : string;
  daemon_id : option string
}.

Variable serialize_value : DaemonHeartbeat → string.

(** The attributes of a handle.  [_inst_data] only records where the
    configuration came from and is left out. *)
Record PostgresRunStorage := {
  postgres_url : string;
  should_autocreate_tables : bool;
  _engine : Engine;
  _index_migration_cache : gmap string bool
}.

(** The data migrations of the base class ([SqlRunStorage.migrate] and
    [.optimize]), run on a freshly created schema. *)
Variable migrate optimize : PostgresRunStorage → M PostgresRunStorage.

Definition with_engine (self : PostgresRunStorage) (e : Engine) : PostgresRunStorage :=
  {| postgres_url := postgres_url self;
     should_autocreate_tables := should_autocreate_tables self;
     _engine := e;
     _index_migration_cache := _index_migration_cache self |}.

Definition with_cache (self : PostgresRunStorage) (c : gmap string bool)
    : PostgresRunStorage :=
  {| postgres_url := postgres_url self;
     should_autocreate_tables := should_autocreate_tables self;
     _engine := _engine self;
     _index_migration_cache := c |}.

Definition create_engine (postgres_url isolation_level : string)
    (poolclass : option PoolClass) (pool_size : option Z)
    (connect_args : gmap string string) (pool_recycle : option Z) : Engine :=
  {| url := make_url postgres_url;
     isolation_level := isolation_level;
     poolclass := poolclass;
     pool_size := pool_size;
     connect_args := connect_args;
     pool_recycle := pool_recycle |}.

Definition connect (self : PostgresRunStorage) : M Connection :=
  ret {| engine := _engine self |}.

Definition _init_db (self : PostgresRunStorage) : M unit :=
  do conn <- connect self ;
  transaction
    (do _ <- create_all RunStorageSqlMetadata conn ;
     stamp_alembic_rev head conn).

(** The constructor returns the handle it built; [migrate] and [optimize]
    hand the handle on because they may fill its cache. *)
Definition __init__ (postgres_url : string) (should_autocreate_tables : bool)
    : M PostgresRunStorage :=
  let self :=
    {| postgres_url := postgres_url;
       should_autocreate_tables := should_autocreate_tables;
       _engine := create_engine postgres_url "AUTOCOMMIT" (Some NullPool) None ∅ None;
       _index_migration_cache := ∅ |} in
  if should_autocreate_tables then
    do table_names <- retry_pg_connection_fn (get_table_names (_engine self)) ;
    if bool_decide ("runs" ∉ table_names) then
      do _ <- retry_pg_creation_fn (_init_db self) ;
      do self <- migrate self ;
      optimize self
    else if bool_decide ("instance_info" ∉ table_names) then
      do _ <- Table_create InstanceInfo (_engine self) ;
      ret self
    else ret self
  else ret self.

(** [if existing_options:] holds for a string that is not empty. *)
Definition optimize_for_dagit (self : PostgresRunStorage)
    (statement_timeout pool_recycle : Z) : PostgresRunStorage :=
  let existing_options := query (url (_engine self)) !! "options" in
  let timeout_option := pg_statement_timeout statement_timeout in
  let options :=
    match existing_options with
    | Some o => if bool_decide (o = "") then timeout_option
                else timeout_option +:+ " " +:+ o
    | None => timeout_option
    end in
  with_engine self
    (create_engine (postgres_url self) "AUTOCOMMIT" None (Some 1)
       {["options" := options]} (Some pool_recycle)).

(** Modelled from the spec: the base-class method
    [SqlRunStorage.has_built_index] is not among the sources.  It
    "quer[ies] the persisted marker": one round trip, answering whether the
    migration is recorded as built. *)
Definition super_has_built_index (self : PostgresRunStorage) (migration_name : string)
    : M bool :=
  do _ <- round_trip (SelectMigrationMarker migration_name) ;
  λ w, (inr (default false (migration_markers (database w) !! migration_name)), w).

(** Modelled from the spec: the base-class method
    [SqlRunStorage.mark_index_built] is not among the sources.  It
    "persist[s] the marker as built". *)
Definition super_mark_index_built (self : PostgresRunStorage) (migration_name : string)
    : M unit :=
  do _ <- round_trip (WriteMigrationMarker migration_name) ;
  λ w, (inr tt,
        {| database :=
             {| relations := relations (database w);
                migration_markers := <[migration_name := true]> (migration_markers (database w)) |};
           round_trips := round_trips w |}).

Definition has_built_index (self : PostgresRunStorage) (migration_name : string)
    : M (bool * PostgresRunStorage) :=
  do self <- match _index_migration_cache self !! migration_name with
             | None =>
                 do b <- super_has_built_index self migration_name ;
                 ret (with_cache self
                        (<[migration_name := b]> (_index_migration_cache self)))
             | Some _ => ret self
             end ;
  match _index_migration_cache self !! migration_name with
  | Some b => ret (b, self)
  | None => raise KeyError
  end.

Definition mark_index_built (self : PostgresRunStorage) (migration_name : string)
    : M PostgresRunStorage :=
  do _ <- super_mark_index_built self migration_name ;
  match _index_migration_cache self !! migration_name with
  | Some _ => ret (with_cache self (delete migration_name (_index_migration_cache self)))
  | None => ret self
  end.

(** The arguments of [.values(...)] and of [set_=...] are evaluated, in
    this order, before [conn.execute] is entered. *)
Definition add_daemon_heartbeat (self : PostgresRunStorage)
    (daemon_heartbeat : DaemonHeartbeat) : M unit :=
  do conn <- connect self ;
  do ts <- lift (utc_datetime_from_timestamp (timestamp daemon_heartbeat)) ;
  do ts' <- lift (utc_datetime_from_timestamp (timestamp daemon_heartbeat)) ;
  conn_execute conn
    (with_returning ["daemon_type"]
      (on_conflict_do_update ["daemon_type"]
        [ ("timestamp", Bind (Some (VTimestamp ts')));
          ("daemon_id", Bind (VText <$> daemon_id daemon_heartbeat));
          ("body", Bind (Some (VText (serialize_value daemon_heartbeat)))) ]
        (values_kw
          [ ("timestamp", Some (VTimestamp ts));
            ("daemon_type", Some (VText (daemon_type daemon_heartbeat)));
            ("daemon_id", VText <$> daemon_id daemon_heartbeat);
            ("body", Some (VText (serialize_value daemon_heartbeat))) ]
          (pg_insert DaemonHeartbeatsTable)))).

Definition kvs_set (self : PostgresRunStorage) (pairs : Py.Object) : M unit :=
  do _ <- lift (Py.mapping_param pairs "pairs" Py.str Py.str) ;
  do entries <- lift (Py.items pairs) ;
  let insert_stmt :=
    values_multi
      ((λ kv, [("key", Py.bind_param kv.1); ("value", Py.bind_param kv.2)]) <$> entries)
      (pg_insert KeyValueStoreTable) in
  let upsert_stmt :=
    with_returning ["key"]
      (on_conflict_do_update ["key"] [("value", Excluded "value")] insert_stmt) in
  do conn <- connect self ;
  conn_execute conn upsert_stmt.

(** *** Vocabulary for the statements about the class *)

(** The statement [kvs_set] sends for the entries of a [dict]. *)
Definition kvs_upsert (kvs : list (string * string)) : Insert :=
  with_returning ["key"]
    (on_conflict_do_update ["key"] [("value", Excluded "value")]
      (values_multi
        ((λ kv, [("key", Some (VText kv.1)); ("value", Some (VText kv.2))]) <$> kvs)
        (pg_insert KeyValueStoreTable))).

(** The row, the conflict clause and the statement [add_daemon_heartbeat]
    builds for a heartbeat whose timestamp is the [datetime] [ts]. *)
Definition heartbeat_row (ts : Z) (hb : DaemonHeartbeat) : Row :=
  row_of
    [ ("timestamp", Some (VTimestamp ts));
      ("daemon_type", Some (VText (daemon_type hb)));
      ("daemon_id", VText <$> daemon_id hb);
      ("body", Some (VText (serialize_value hb))) ].

Definition heartbeat_conflict (ts : Z) (hb : DaemonHeartbeat) : OnConflictDoUpdate :=
  {| index_elements := ["daemon_type"];
     set_ := [ ("timestamp", Bind (Some (VTimestamp ts)));
               ("daemon_id", Bind (VText <$> daemon_id hb));
               ("body", Bind (Some (VText (serialize_value hb)))) ] |}.

Definition heartbeat_upsert (ts : Z) (hb : DaemonHeartbeat) : Insert :=
  {| table := name DaemonHeartbeatsTable;
     values := [heartbeat_row ts hb];
     on_conflict := Some (heartbeat_conflict ts hb);
     returning := ["daemon_type"] |}.

(** The columns every heartbeat fills ([daemon_id] may be [None]). *)
Definition heartbeat_columns : list string :=
  ["timestamp"; "daemon_type"; "body"].

(** [r] carries the timestamp, the daemon id and the serialized body of [hb]. *)
Definition reflects (r : Row) (hb : DaemonHeartbeat) : Prop :=
  (∃ ts, utc_datetime_from_timestamp (timestamp hb) = inr ts ∧
         r !! "timestamp" = Some (VTimestamp ts)) ∧
  r !! "daemon_id" = (VText <$> daemon_id hb) ∧
  r !! "body" = Some (VText (serialize_value hb)).

(** A heartbeat the driver and the table take: its timestamp is a
    [datetime], its texts hold no NUL character, and they respect the
    length bounds of the table. *)
Definition deliverable (w : World) (hb : DaemonHeartbeat) : Prop :=
  ∃ ts, utc_datetime_from_timestamp (timestamp hb) = inr ts ∧
        has_nul (daemon_type hb) = false ∧
        from_option has_nul false (daemon_id hb) = false ∧
        has_nul (serialize_value hb) = false ∧
        fits (table_limits w DaemonHeartbeatsTable) (heartbeat_row ts hb) = true.

(** Calls made one after the other, by whichever handles. *)
Fixpoint add_daemon_heartbeats (calls : list (PostgresRunStorage * DaemonHeartbeat))
    : M unit :=
  match calls with
  | [] => ret tt
  | (self, daemon_heartbeat) :: calls =>
      do _ <- add_daemon_heartbeat self daemon_heartbeat ;
      add_daemon_heartbeats calls
  end.

(** What can happen around one handle between two of its calls: another
    process leaves the database in some other state, or the handle is
    asked about, or told of, a migration. *)
Inductive Event :=
| Elsewhere (db : Database)
| HasBuiltIndex (migration_name : string)
| MarkIndexBuilt (migration_name : string).

Definition step (st : PostgresRunStorage * World) (ev : Event)
    : PostgresRunStorage * World :=
  let '(self, w) := st in
  match ev with
  | Elsewhere db => (self, {| database := db; round_trips := round_trips w |})
  | HasBuiltIndex n =>
      match has_built_index self n w with
      | (inr (_, self'), w') => (self', w')
      | (inl _, w') => (self, w')
      end
  | MarkIndexBuilt n =>
      match mark_index_built self n w with
      | (inr self', w') => (self', w')
      | (inl _, w') => (self, w')
      end
  end.

Definition run (events : list Event) (st : PostgresRunStorage * World)
    : PostgresRunStorage * World :=
  foldl step st events.

End Storage.

(** The row and the conflict clause [kvs_set] builds for an entry. *)
Definition kv_row (kv : string * string) : Row :=
  row_of [("key", Some (VText kv.1)); ("value", Some (VText kv.2))].

Definition kvs_conflict : OnConflictDoUpdate :=
  {| index_elements := ["key"]; set_ := [("value", Excluded "value")] |}.

(** An entry the driver and the table [t] take: neither text holds a NUL
    character, and both respect the length bounds of the table. *)
Definition storable (w : World) (t : Schema) (kv : string * string) : Prop :=
  has_nul kv.1 = false ∧ has_nul kv.2 = false ∧
  fits (table_limits w t) (kv_row kv) = true.

(** The persisted marker of a migration, and a world with one more round
    trip on record. *)
Definition persisted (w : World) (migration_name : string) : bool :=
  default false (migration_markers (database w) !! migration_name).

Definition logged (w : World) (q : RoundTrip) : World :=
  {| database := database w; round_trips := round_trips w ++ [q] |}.


(** The rows of a table of the database (none when it does not exist). *)
Definition table_rows (w : World) (t : Schema) : list Row :=
  match relations (database w) !! name t with
  | Some tb => rows tb
  | None => []
  end.

(** [r] is the one row of [rs] whose column [kcol] holds [k]. *)
Definition stored_under (rs : list Row) (kcol : string) (k : Value) (r : Row) : Prop :=
  ∃ i, rs !! i = Some r ∧ r !! kcol = Some k ∧
       ∀ j r', rs !! j = Some r' → r' !! kcol = Some k → j = i.

(** The table [t] exists, its unique index is the one on [kcol], its
    NOT NULL columns are among [cols], and its rows respect the index. *)
Definition keyed_table (w : World) (t : Schema) (kcol : string) (cols : list string)
    : Prop :=
  ∃ tb, relations (database w) !! name t = Some tb ∧
        unique_indexes (schema tb) = [[kcol]] ∧
        (∀ c, c ∈ not_null (schema tb) → c ∈ cols) ∧
        unique_on [kcol] (rows tb).

End RunStorage.

(* ===================================================================== *)
(** ** A small installation to run the class on *)
(* ===================================================================== *)

Module Demo.
Import Sql RunStorage.

(** The declarations of [dagster._core.storage.runs.schema], cut down to
    what the class reads or writes. *)
Definition runs : Schema :=
  {| name := "runs"; unique_indexes := [["run_id"]]; not_null := [];
     max_length := [("run_id", 255%nat); ("status", 63%nat)] |}.
Definition secondary_indexes : Schema :=
  {| name := "secondary_indexes"; unique_indexes := [["name"]]; not_null := [];
     max_length := [] |}.
Definition daemon_heartbeats : Schema :=
  {| name := "daemon_heartbeats"; unique_indexes := [["daemon_type"]];
     not_null := ["daemon_type"; "timestamp"];
     max_length := [("daemon_type", 255%nat); ("daemon_id", 255%nat)] |}.
Definition instance_info : Schema :=
  {| name := "instance_info"; unique_indexes := []; not_null := [];
     max_length := [] |}.
Definition kvs : Schema :=
  {| name := "kvs"; unique_indexes := [["key"]]; not_null := ["key"];
     max_length := [] |}.

Definition metadata : list Schema :=
  [runs; secondary_indexes; daemon_heartbeats; instance_info; kvs].

Definition make_url (s : string) : URL := {| address := s; query := ∅ |}.

Definition handle : PostgresRunStorage :=
  {| postgres_url := "postgresql://dagster@db/dagster";
     should_autocreate_tables := true;
     _engine := create_engine make_url "postgresql://dagster@db/dagster"
                  "AUTOCOMMIT" (Some NullPool) None ∅ None;
     _index_migration_cache := ∅ |}.

Definition empty_table (s : Schema) : Table := {| schema := s; rows := [] |}.

(** A database with nothing in it, and one whose tables exist and are empty. *)
Definition fresh : World :=
  {| database := {| relations := ∅; migration_markers := ∅ |}; round_trips := [] |}.

Definition initialized : World :=
  {| database :=
       {| relations := list_to_map ((λ s, (name s, empty_table s)) <$> metadata);
          migration_markers := ∅ |};
     round_trips := [] |}.

(** The key-value table holding ["a" ↦ "0"]. *)
Definition with_a0 : World :=
  {| database :=
       {| relations := {[ "kvs" := {| schema := kvs; rows := [kv_row ("a", "0")] |} ]};
          migration_markers := ∅ |};
     round_trips := [] |}.

(** The primary table and a stamp, as an older release left them. *)
Definition legacy : World :=
  {| database :=
       {| relations :=
            {[ "runs" := empty_table runs;
               "alembic_version" :=
                 {| schema := alembic_version_table;
                    rows := [ {["version_num" := VText "5771160a95ad"]} ] |} ]};
          migration_markers := ∅ |};
     round_trips := [] |}.

Definition migrate (self : PostgresRunStorage) : M PostgresRunStorage :=
  mark_index_built self "run_partitions".
Definition optimize (self : PostgresRunStorage) : M PostgresRunStorage :=
  mark_index_built self "run_start_end".

(** Heartbeats stamped in whole seconds; a [datetime] lies in the years 1
    to 9999, and a timestamp of a later year is refused with [ValueError]. *)
Definition utc_datetime_from_timestamp (t : Z) : Error + Z :=
  if bool_decide (-62135596800 ≤ t ≤ 253402300799)%Z then inr (t * 1000000)
  else inl ValueError.
Definition serialize_value (hb : @DaemonHeartbeat Z) : string :=
  daemon_type hb +:+ "/" +:+ default "" (daemon_id hb).

Definition beat1 : @DaemonHeartbeat Z :=
  {| timestamp := 100; daemon_type := "SENSOR"; daemon_id := Some "d-1" |}.
Definition beat2 : @DaemonHeartbeat Z :=
  {| timestamp := 130; daemon_type := "SENSOR"; daemon_id := Some "d-2" |}.



End Demo.

(* ===================================================================== *)
(** ** Several handles on one database *)
(* ===================================================================== *)

Module Maintenance.
Import Sql RunStorage.

(** *** Several handles on one database *)

(** One thing happening to the pair of a handle and the shared database:
    the handle asks about a migration or marks one, or some other handle
    does. *)
Inductive evolves : PostgresRunStorage * World → PostgresRunStorage * World → Prop :=
| evolves_has self n w b self' w' :
    has_built_index self n w = (inr (b, self'), w') →
    evolves (self, w) (self', w')
| evolves_mark self n w self' w' :
    mark_index_built self n w = (inr self', w') →
    evolves (self, w) (self', w')
| evolves_other_has self other n w r w' :
    has_built_index other n w = (r, w') →
    evolves (self, w) (self, w')
| evolves_other_mark self other n w r w' :
    mark_index_built other n w = (r, w') →
    evolves (self, w) (self, w').

(** Every [true] the handle has cached is true of the database. *)
Definition cached_true_is_built (st : PostgresRunStorage * World) : Prop :=
  ∀ n, _index_migration_cache st.1 !! n = Some true → persisted st.2 n = true.

End Maintenance.

Module DemoMore.
Import Sql RunStorage.

(** The example installation after the first sensor heartbeat. *)
Definition with_sensor : World :=
  (add_daemon_heartbeat Demo.utc_datetime_from_timestamp Demo.daemon_heartbeats
     Demo.serialize_value Demo.handle Demo.beat1 Demo.initialized).2.

Definition sensor_row : Row :=
  heartbeat_row Demo.serialize_value 100000000 Demo.beat1.

Definition beat3 : @DaemonHeartbeat Z :=
  {| timestamp := 140; daemon_type := "SCHEDULER"; daemon_id := Some "d-3" |}.

(** The example handle after it marked a migration on the database with
    its empty tables, and after it then asked about it. *)
Definition after_mark : PostgresRunStorage * World :=
  run [MarkIndexBuilt "run_partitions"] (Demo.handle, Demo.initialized).

Definition after_question : PostgresRunStorage * World :=
  run [HasBuiltIndex "run_partitions"] after_mark.

(** A second handle on the same database. *)
Definition other_handle : PostgresRunStorage :=
  {| postgres_url := "postgresql://dagster@db/dagster";
     should_autocreate_tables := false;
     _engine := create_engine Demo.make_url "postgresql://dagster@db/dagster"
                  "AUTOCOMMIT" (Some NullPool) None ∅ None;
     _index_migration_cache := ∅ |}.

Definition pg_statement_timeout (t : Z) : string :=
  if decide (t = 5000) then "-c statement_timeout=5000" else "-c statement_timeout=0".

End DemoMore.

(* ===================================================================== *)
(** ** Facts about the relational model *)
(* ===================================================================== *)

Section SqlFacts.
Import Sql.

Lemma conflicts_single (c : string) (r p : Row) :
  conflicts [c] r p = true ↔ r !! c = p !! c ∧ is_Some (p !! c).
Proof.
  unfold conflicts; simpl. rewrite andb_true_r.
  destruct (r !! c) as [a|], (p !! c) as [b|]; simpl.
  - rewrite bool_decide_eq_true. split.
    + intros ->. split; [done | by eexists].
    + intros [[= ->] _]. done.
  - split; [done | intros [[=] _]].
  - split; [done | intros [[=] _]].
  - split; [done | intros [_ [? [=]]]].
Qed.

Lemma violates_single_false (c : string) (others : list Row) (r : Row) :
  (∀ r', r' ∈ others → conflicts [c] r' r = false) →
  violates [[c]] others r = false.
Proof.
  intros H. unfold violates. cbn [existsb]. rewrite orb_false_r.
  apply not_true_is_false. intros Hex.
  apply existsb_exists in Hex as (r' & Hin & Hc).
  apply list_elem_of_In in Hin. rewrite (H r' Hin) in Hc. done.
Qed.

Lemma elem_of_delete_lookup {A} (l : list A) (i : nat) (x : A) :
  x ∈ delete i l → ∃ j, j ≠ i ∧ l !! j = Some x.
Proof.
  intros (j & Hj)%list_elem_of_lookup.
  destruct (decide (j < i)%nat).
  - rewrite list_lookup_delete_lt in Hj by done. exists j. split; [lia | done].
  - rewrite list_lookup_delete_ge in Hj by lia. exists (S j). split; [lia | done].
Qed.

Lemma unique_on_nil (cols : list string) : unique_on cols [].
Proof. intros i j ri rj Hi. by rewrite lookup_nil in Hi. Qed.

Lemma unique_on_singleton (cols : list string) (r : Row) : unique_on cols [r].
Proof.
  intros i j ri rj Hi Hj _.
  apply list_lookup_singleton_Some in Hi as [-> _].
  by apply list_lookup_singleton_Some in Hj as [-> _].
Qed.

(** *** Upserts arbitrated by a single-column unique index *)

Section SingleKey.
Context (s : Schema) (oc : OnConflictDoUpdate) (c : string).
Hypothesis Harbiter : index_elements oc = [c].
Hypothesis Hindexes : unique_indexes s = [[c]].
Hypothesis Hkeep : ∀ p r, assign (set_ oc) p r !! c = r !! c.

(** One proposed row: it either replaces the row that carries its key,
    in place, or is appended. *)
Lemma upsert_rows_step (p : Row) (ps rs : list Row) (touched : list nat) :
  unique_on [c] rs →
  admissible s oc c p →
  (∀ i, i ∈ touched → ∃ r, rs !! i = Some r ∧ r !! c ≠ p !! c) →
  ∃ i r' rs1,
    upsert_rows s oc (p :: ps) rs touched = upsert_rows s oc ps rs1 (i :: touched) ∧
    rs1 !! i = Some r' ∧ r' !! c = p !! c ∧ (i ∉ touched) ∧
    (rs !! i = None ∧ r' = p ∧ rs1 = (rs ++ [p]) ∨
     ∃ r, rs !! i = Some r ∧ r !! c = p !! c ∧ r' = assign (set_ oc) p r ∧
          rs1 = <[i := r']> rs) ∧
    unique_on [c] rs1.
Proof.
  intros Huniq (Hfits & Hsfits & Hnn & Hkey & Hupd) Htouched.
  cbn [upsert_rows]. rewrite Hfits, Hnn. cbn [negb]. rewrite Harbiter, Hindexes.
  destruct (list_find _ rs) as [[i r]|] eqn:Hfind.
  - apply list_find_Some in Hfind as (Hi & Hconf & Hfirst).
    apply Is_true_true, conflicts_single in Hconf as [Hrk _].
    assert (Hnt : i ∉ touched).
    { intros (r0 & Hr0 & Hne)%Htouched. congruence. }
    rewrite bool_decide_eq_false_2 by done.
    rewrite Hsfits, (Hupd r Hrk). cbn [negb].
    assert (Huniq1 : unique_on [c] (<[i := assign (set_ oc) p r]> rs)).
    { intros j1 j2 r1 r2 H1 H2 Hc.
      apply conflicts_single in Hc as [Hc Hs].
      assert (∀ j r0, <[i := assign (set_ oc) p r]> rs !! j = Some r0 →
                ∃ r0', rs !! j = Some r0' ∧ r0' !! c = r0 !! c) as Hback.
      { intros j r0 Hj. destruct (decide (j = i)) as [->|Hne].
        - rewrite list_lookup_insert_eq in Hj by (by eapply lookup_lt_Some).
          injection Hj as <-. exists r. by rewrite Hkeep.
        - rewrite list_lookup_insert_ne in Hj by done. by exists r0. }
      destruct (Hback _ _ H1) as (r1' & H1' & E1).
      destruct (Hback _ _ H2) as (r2' & H2' & E2).
      apply (Huniq j1 j2 r1' r2' H1' H2').
      apply conflicts_single. rewrite E1, E2. done. }
    rewrite violates_single_false.
    + exists i, (assign (set_ oc) p r), (<[i := assign (set_ oc) p r]> rs).
      split; [done|]. split.
      { apply list_lookup_insert_eq. by eapply lookup_lt_Some. }
      split; [by rewrite Hkeep|]. split; [done|]. split; [|done].
      right. by exists r.
    + intros r' (j & Hne & Hj)%elem_of_delete_lookup.
      apply not_true_is_false. intros Hc.
      apply Hne. apply (Huniq j i r' r Hj Hi).
      apply conflicts_single. apply conflicts_single in Hc as [Hc Hs].
      rewrite Hkeep in Hc, Hs. done.
  - apply list_find_None in Hfind.
    assert (Hfresh : ∀ r, r ∈ rs → conflicts [c] r p = false).
    { intros r Hin. rewrite Forall_forall in Hfind.
      apply not_true_is_false. intros Hc. by apply (Hfind r Hin), Is_true_true. }
    rewrite violates_single_false by done.
    exists (length rs), p, (rs ++ [p]).
    split; [done|]. split; [by apply list_lookup_middle|].
    split; [done|]. split.
    { intros (r0 & Hr0 & _)%Htouched.
      apply lookup_lt_Some in Hr0. lia. }
    split.
    { left. split; [|done]. apply lookup_ge_None. lia. }
    intros j1 j2 r1 r2 H1 H2 Hc.
    apply lookup_snoc_Some in H1 as [[Hl1 H1]|[-> <-]];
      apply lookup_snoc_Some in H2 as [[Hl2 H2]|[-> <-]].
    + by apply (Huniq j1 j2 r1 r2).
    + rewrite Hfresh in Hc; [done|]. by eapply list_elem_of_lookup_2.
    + apply conflicts_single in Hc as [Hc Hs].
      assert (conflicts [c] r2 p = true) as Hc'.
      { apply conflicts_single. rewrite Hc. done. }
      rewrite Hfresh in Hc'; [done|]. by eapply list_elem_of_lookup_2.
    + done.
Qed.

(** What the step leaves alone: every row under another key. *)
Lemma upsert_step_frame (p r' : Row) (rs rs1 : list Row) (i : nat) :
  r' !! c = p !! c →
  (rs !! i = None ∧ r' = p ∧ rs1 = (rs ++ [p]) ∨
   ∃ r, rs !! i = Some r ∧ r !! c = p !! c ∧ r' = assign (set_ oc) p r ∧
        rs1 = <[i := r']> rs) →
  (∀ j, rs1 !! j = None → rs !! j = None) ∧
  (∀ j r0, r0 !! c ≠ p !! c → rs1 !! j = Some r0 ↔ rs !! j = Some r0).
Proof.
  intros Hk [(Hnone & -> & ->)|(r & Hi & Hrk & -> & ->)].
  - split.
    + intros j Hj. apply lookup_ge_None. apply lookup_ge_None in Hj.
      rewrite length_app in Hj. lia.
    + intros j r0 Hne. rewrite lookup_snoc_Some. split.
      * intros [[_ H]|[_ <-]]; [done | by destruct Hne].
      * intros H. left. split; [by eapply lookup_lt_Some | done].
  - split.
    + intros j Hj. apply lookup_ge_None. apply lookup_ge_None in Hj.
      by rewrite length_insert in Hj.
    + intros j r0 Hne. destruct (decide (j = i)) as [->|Hji].
      * rewrite list_lookup_insert_eq by (by eapply lookup_lt_Some).
        split.
        -- intros [= <-]. rewrite Hkeep in Hne. by destruct Hne.
        -- intros H. rewrite Hi in H. injection H as <-. by destruct Hne.
      * by rewrite list_lookup_insert_ne.
Qed.

Abbreviation key_of := (λ p : Row, p !! c).

(** A whole batch with pairwise different keys goes through; afterwards
    each proposed row is found under its key, written over the row that
    carried the key or appended, and the rows under other keys stand
    where they stood. *)
Lemma upsert_rows_batch (ps : list Row) :
  ∀ (rs : list Row) (touched : list nat),
  unique_on [c] rs →
  NoDup (key_of <$> ps) →
  Forall (admissible s oc c) ps →
  (∀ i, i ∈ touched → ∃ r, rs !! i = Some r ∧ r !! c ∉ key_of <$> ps) →
  ∃ rs',
    upsert_rows s oc ps rs touched = inr rs' ∧
    unique_on [c] rs' ∧
    (∀ j, rs' !! j = None → rs !! j = None) ∧
    (∀ j r0, r0 !! c ∉ key_of <$> ps → rs' !! j = Some r0 ↔ rs !! j = Some r0) ∧
    (∀ p, p ∈ ps → ∃ i r',
       rs' !! i = Some r' ∧ r' !! c = p !! c ∧
       (rs !! i = None ∧ r' = p ∨
        ∃ r, rs !! i = Some r ∧ r !! c = p !! c ∧ r' = assign (set_ oc) p r)).
Proof.
  induction ps as [|p ps IH]; intros rs touched Huniq Hnd Hall Htouched.
  - exists rs. cbn. split; [done|]. split; [done|]. split; [done|].
    split; [done|]. intros p Hp. by apply elem_of_nil in Hp.
  - rewrite fmap_cons in Hnd. apply NoDup_cons in Hnd as [Hfresh Hnd].
    apply Forall_cons in Hall as [Hadm Hall].
    destruct (upsert_rows_step p ps rs touched Huniq Hadm)
      as (i & r' & rs1 & Heq & Hi1 & Hk1 & Hnt & Hshape & Huniq1).
    { intros j (r & Hr & Hnk)%Htouched. exists r. split; [done|].
      intros E. apply Hnk. rewrite fmap_cons, E. apply elem_of_cons. by left. }
    destruct (upsert_step_frame p r' rs rs1 i Hk1 Hshape) as [Hgrow Hframe].
    destruct (IH rs1 (i :: touched) Huniq1 Hnd Hall)
      as (rs' & Hrun & Huniq' & Hgrow' & Hframe' & Hwritten').
    { intros j [->|Hj]%elem_of_cons.
      - exists r'. split; [done|]. by rewrite Hk1.
      - destruct (Htouched j Hj) as (r & Hr & Hnk).
        exists r. rewrite fmap_cons, not_elem_of_cons in Hnk.
        destruct Hnk as [Hne Hnk]. split; [|done].
        by apply Hframe. }
    exists rs'. rewrite Heq. split; [done|]. split; [done|].
    split; [by auto|]. split.
    + intros j r0 Hnk. rewrite fmap_cons, not_elem_of_cons in Hnk.
      destruct Hnk as [Hne Hnk]. rewrite Hframe' by done. by apply Hframe.
    + intros p' [->|Hp']%elem_of_cons.
      * exists i, r'. split; [|split; [done|]].
        { apply Hframe'; [by rewrite Hk1 | done]. }
        destruct Hshape as [(Hn & -> & _)|(r & Hr & Hrk & -> & _)];
          [by left | right; by exists r].
      * destruct (Hwritten' p' Hp') as (i' & r'' & Hi' & Hk' & Hsh').
        exists i', r''. split; [done|]. split; [done|].
        assert (p' !! c ≠ p !! c) as Hne.
        { intros E. apply Hfresh. rewrite <- E.
          apply list_elem_of_fmap. by exists p'. }
        destruct Hsh' as [[Hn ->]|(r & Hr & Hrk & ->)].
        -- left. split; [by apply Hgrow | done].
        -- right. exists r. split; [|done].
           apply Hframe; [congruence | done].
Qed.

(** A batch that reaches a key twice, or reaches a row the command has
    already touched, is refused. *)
Lemma upsert_rows_twice (ps : list Row) :
  ∀ (rs : list Row) (touched : list nat),
  unique_on [c] rs →
  Forall (admissible s oc c) ps →
  (∀ i, i ∈ touched → is_Some (rs !! i)) →
  (∃ p i r, p ∈ ps ∧ i ∈ touched ∧ rs !! i = Some r ∧ r !! c = p !! c) ∨
    ¬ NoDup (key_of <$> ps) →
  upsert_rows s oc ps rs touched = inl CardinalityViolation.
Proof.
  induction ps as [|p ps IH]; intros rs touched Huniq Hall Hvalid Hdup.
  - destruct Hdup as [(p & i & r & Hp & _)|Hnd].
    + by apply elem_of_nil in Hp.
    + destruct Hnd. constructor.
  - apply Forall_cons in Hall as [Hadm Hall].
    assert (Hview : ∀ i, key_of <$> rs !! i = Some (p !! c) ↔
                      ∃ r, rs !! i = Some r ∧ r !! c = p !! c).
    { intros i. rewrite fmap_Some. split.
      - intros (r & Hr & E). exists r. split; [done|]. exact (eq_sym E).
      - intros (r & Hr & E). exists r. split; [done|]. exact (eq_sym E). }
    destruct (decide (Exists (λ i, key_of <$> rs !! i = Some (p !! c)) touched))
      as [Hhit|Hmiss].
    + (* the row under this key was written earlier in the command *)
      apply Exists_exists in Hhit as (i & Hi & (r & Hr & Hrk)%Hview).
      destruct Hadm as (Hfits & _ & Hnn & Hkey & _).
      cbn [upsert_rows]. rewrite Hfits, Hnn. cbn [negb]. rewrite Harbiter.
      destruct (list_find _ rs) as [[i' r0]|] eqn:Hfind.
      * apply list_find_Some in Hfind as (Hi' & Hconf & _).
        apply Is_true_true in Hconf.
        assert (i' = i) as ->.
        { apply (Huniq i' i r0 r Hi' Hr).
          apply conflicts_single. apply conflicts_single in Hconf as [E Hs].
          split; [congruence | by rewrite Hrk]. }
        by rewrite bool_decide_eq_true_2.
      * apply list_find_None in Hfind. rewrite Forall_forall in Hfind.
        destruct (Hfind r).
        { by eapply list_elem_of_lookup_2. }
        apply Is_true_true, conflicts_single. done.
    + destruct (upsert_rows_step p ps rs touched Huniq Hadm)
        as (i & r' & rs1 & Heq & Hi1 & Hk1 & Hnt & Hshape & Huniq1).
      { intros j Hj. destruct (Hvalid j Hj) as [r Hr]. exists r.
        split; [done|]. intros E. apply Hmiss. apply Exists_exists.
        exists j. split; [done|]. apply Hview. by exists r. }
      destruct (upsert_step_frame p r' rs rs1 i Hk1 Hshape) as [Hgrow Hframe].
      rewrite Heq. apply IH; [done | done | |].
      * intros j [->|Hj]%elem_of_cons; [by eexists|].
        destruct (rs1 !! j) eqn:E; [by eexists|].
        apply Hgrow in E. destruct (Hvalid j Hj) as [? ?]. congruence.
      * destruct Hdup as [(p0 & i0 & r0 & Hp0 & Hi0 & Hr0 & Hk0)|Hnd].
        -- left. apply elem_of_cons in Hp0 as [->|Hp0].
           { destruct Hmiss. apply Exists_exists. exists i0.
             split; [done|]. apply Hview. by exists r0. }
           exists p0, i0, r0. split; [done|]. split; [by apply elem_of_cons; right|].
           split; [|done]. apply Hframe; [|done].
           intros E. apply Hmiss. apply Exists_exists. exists i0.
           split; [done|]. apply Hview. by exists r0.
        -- destruct (decide (p !! c ∈ key_of <$> ps)) as [Hin|Hnin].
           ++ left. apply list_elem_of_fmap in Hin as (p' & E & Hp').
              exists p', i, r'. split; [done|]. split; [by apply elem_of_cons; left|].
              split; [done|]. by rewrite Hk1.
           ++ right. intros Hnd'. apply Hnd. rewrite fmap_cons.
              by apply NoDup_cons.
Qed.

(** What any batch that goes through leaves alone: every row under a key
    no proposed row carries. *)
Lemma upsert_rows_frame (ps : list Row) :
  ∀ (rs rs' : list Row) (touched : list nat),
  upsert_rows s oc ps rs touched = inr rs' →
  ∀ j r0, r0 !! c ∉ key_of <$> ps → rs' !! j = Some r0 ↔ rs !! j = Some r0.
Proof.
  induction ps as [|p ps IH]; intros rs rs' touched Hrun j r0 Hnk.
  - cbn in Hrun. by injection Hrun as ->.
  - rewrite fmap_cons, not_elem_of_cons in Hnk. destruct Hnk as [Hne Hnk].
    cbn [upsert_rows] in Hrun.
    destruct (fits _ p); [|done]. destruct (has_columns _ p); [|done].
    cbn [negb] in Hrun. rewrite Harbiter in Hrun.
    destruct (list_find _ rs) as [[i r]|] eqn:Hfind.
    + apply list_find_Some in Hfind as (Hi & Hconf & _).
      apply Is_true_true, conflicts_single in Hconf as [Hrk _].
      destruct (bool_decide _); [done|]. destruct (set_fits _ _ _); [|done].
      cbn [negb] in Hrun. destruct (has_columns _ _); [|done]. cbn [negb] in Hrun.
      destruct (violates _ _ _); [done|].
      rewrite (IH _ _ _ Hrun j r0 Hnk).
      refine (proj2 (upsert_step_frame p (assign (set_ oc) p r) rs _ i _ _) j r0 Hne).
      * by rewrite Hkeep.
      * right. by exists r.
    + destruct (violates _ _ _); [done|].
      rewrite (IH _ _ _ Hrun j r0 Hnk).
      refine (proj2 (upsert_step_frame p p rs _ (length rs) eq_refl _) j r0 Hne).
      left. split; [|done]. apply lookup_ge_None. lia.
Qed.

(** A proposed row without a key collides with nothing. *)
Lemma upsert_rows_null_key (p : Row) (rs : list Row) :
  p !! c = None →
  upsert_rows s oc [p] rs [] =
    if fits (max_length s) p
    then if has_columns (not_null s) p then inr (rs ++ [p]) else inl NotNullViolation
    else inl StringDataRightTruncation.
Proof.
  intros Hnull. cbn [upsert_rows].
  destruct (fits (max_length s) p); [|done].
  destruct (has_columns (not_null s) p); [|done]. cbn [negb].
  rewrite Harbiter, Hindexes.
  assert (∀ r, conflicts [c] r p = false) as Hnone.
  { intros r. apply not_true_is_false.
    intros [_ [v Hv]]%conflicts_single. congruence. }
  destruct (list_find _ rs) as [[i r]|] eqn:Hfind.
  - apply list_find_Some in Hfind as (_ & Hconf & _).
    apply Is_true_true in Hconf. by rewrite Hnone in Hconf.
  - by rewrite violates_single_false.
Qed.

End SingleKey.

(** *** Rows and assignments of the statements the class builds *)

Lemma row_of_nil : row_of [] = ∅.
Proof. reflexivity. Qed.

Lemma row_of_cons (c : string) (v : Value) (kw : list (string * option Value)) :
  row_of ((c, Some v) :: kw) = <[c := v]> (row_of kw).
Proof. reflexivity. Qed.

Lemma assign_nil (p r : Row) : assign [] p r = r.
Proof. reflexivity. Qed.

Lemma assign_cons (c : string) (e : Expr) (set_ : list (string * Expr)) (p r : Row) :
  assign ((c, e) :: set_) p r =
  assign set_ p (match eval e p with Some v => <[c := v]> r | None => delete c r end).
Proof. reflexivity. Qed.

(** A [SET] list that assigns to each column what the proposed row holds
    there asks no more of the length bounds than the row does. *)
Lemma set_fits_of_fits (limits : list (string * nat)) (set_ : list (string * Expr))
    (p : Row) :
  Forall (λ ce, eval ce.2 p = p !! ce.1) set_ →
  fits limits p = true → set_fits limits set_ p = true.
Proof.
  intros Hset Hfits. unfold set_fits. apply forallb_forall.
  intros ce Hce%list_elem_of_In. apply forallb_forall. intros cn Hcn.
  rewrite Forall_forall in Hset. rewrite (Hset ce Hce).
  destruct (bool_decide (cn.1 = ce.1)) eqn:E; [|done]. cbn [negb orb].
  apply bool_decide_eq_true in E. rewrite <- E.
  unfold fits in Hfits. rewrite forallb_forall in Hfits. by apply Hfits.
Qed.

Lemma fits_nil (r : Row) : fits [] r = true.
Proof. reflexivity. Qed.

Lemma assign_lookup_ne (set_ : list (string * Expr)) (c : string) (p : Row) :
  c ∉ set_.*1 → ∀ r, assign set_ p r !! c = r !! c.
Proof.
  induction set_ as [|[c' e] set_ IH]; intros Hc r; [done|].
  rewrite fmap_cons, not_elem_of_cons in Hc. destruct Hc as [Hne Hc].
  rewrite assign_cons, (IH Hc). cbn [fst] in Hne.
  destruct (eval e p).
  - by rewrite lookup_insert_ne.
  - by rewrite lookup_delete_ne.
Qed.

End SqlFacts.


(* ===================================================================== *)
(** ** Statements against the whole database *)
(* ===================================================================== *)

Section UpsertFacts.
Import Sql RunStorage.

Lemma has_columns_true (cols : list string) (r : Row) :
  has_columns cols r = true ↔ ∀ c, c ∈ cols → is_Some (r !! c).
Proof.
  unfold has_columns. rewrite forallb_forall. split.
  - intros H c Hc. apply list_elem_of_In, H in Hc.
    by apply bool_decide_eq_true in Hc.
  - intros H c Hc. apply bool_decide_eq_true, H. by apply list_elem_of_In.
Qed.

Lemma row_adaptable_empty : row_adaptable ∅ = true.
Proof. apply bool_decide_eq_true. apply map_Forall_empty. Qed.

Lemma row_adaptable_insert (c : string) (v : Value) (r : Row) :
  adaptable v = true → row_adaptable r = true → row_adaptable (<[c := v]> r) = true.
Proof.
  unfold row_adaptable. rewrite !bool_decide_eq_true. intros Hv Hr.
  by apply map_Forall_insert_2.
Qed.

Lemma row_of_cons_None (c : string) (kw : list (string * option Value)) :
  row_of ((c, None) :: kw) = row_of kw.
Proof. reflexivity. Qed.

(** An upsert never removes a row and never moves one; in a row it keeps
    every column the [SET] list does not name. *)
Lemma upsert_rows_preserves (s : Schema) (oc : OnConflictDoUpdate) (ps : list Row) :
  ∀ (rs : list Row) (touched : list nat) (rs' : list Row),
  upsert_rows s oc ps rs touched = inr rs' →
  ∀ i r, rs !! i = Some r →
    ∃ r', rs' !! i = Some r' ∧ ∀ c, c ∉ (set_ oc).*1 → r' !! c = r !! c.
Proof.
  induction ps as [|p ps IH]; intros rs touched rs' Hrun i r Hi.
  - injection Hrun as <-. by exists r.
  - cbn [upsert_rows] in Hrun.
    destruct (fits _ p); [|done].
    destruct (has_columns (not_null s) p); [|done]. cbn [negb] in Hrun.
    destruct (list_find _ rs) as [[j r0]|] eqn:Hfind.
    + destruct (bool_decide (j ∈ touched)); [done|].
      destruct (set_fits _ _ _); [|done].
      destruct (has_columns _ _); [|done]. cbn [negb] in Hrun.
      destruct (violates _ _ _); [done|].
      apply list_find_Some in Hfind as (Hj & _ & _).
      destruct (decide (i = j)) as [->|Hne].
      * rewrite Hj in Hi. injection Hi as <-.
        destruct (IH _ _ _ Hrun j (assign (set_ oc) p r0)) as (r' & Hr' & Hkeep).
        { apply list_lookup_insert_eq. by eapply lookup_lt_Some. }
        exists r'. split; [done|]. intros c Hc.
        by rewrite (Hkeep c Hc), assign_lookup_ne.
      * apply (IH _ _ _ Hrun i r). by rewrite list_lookup_insert_ne.
    + destruct (violates _ _ _); [done|].
      apply (IH _ _ _ Hrun i r). by apply lookup_app_l_Some.
Qed.

(** What a successful statement with a conflict clause does to the
    relations: it rewrites the rows of its table. *)
Lemma execute_upsert_inv (stmt : Insert) (oc : OnConflictDoUpdate)
    (rel rel' : gmap string Table) :
  on_conflict stmt = Some oc →
  execute stmt rel = inr rel' →
  ∃ tb rs',
    rel !! table stmt = Some tb ∧
    upsert_rows (schema tb) oc (values stmt) (rows tb) [] = inr rs' ∧
    rel' = <[table stmt := {| schema := schema tb; rows := rs' |}]> rel.
Proof.
  intros Hoc. unfold execute. rewrite Hoc.
  destruct (rel !! table stmt) as [tb|]; [|done].
  destruct (bool_decide _); [|done].
  destruct (upsert_rows _ _ _ _ _) as [e|rs'] eqn:Hrun; [done|].
  intros [= <-]. by exists tb, rs'.
Qed.

(** No statement reaches a table other than its own. *)
Lemma execute_other_tables (stmt : Insert) (rel rel' : gmap string Table) (t : string) :
  execute stmt rel = inr rel' → t ≠ table stmt → rel' !! t = rel !! t.
Proof.
  unfold execute. destruct (rel !! table stmt) as [tb|]; [|done].
  match goal with |- context [match ?x with inl _ => _ | inr _ => _ end] =>
    destruct x as [e|rs]; [done|] end.
  intros [= <-] Hne. by rewrite lookup_insert_ne.
Qed.

(** A statement against a table that does not exist. *)
Lemma execute_undefined_table (stmt : Insert) (rel : gmap string Table) :
  rel !! table stmt = None → execute stmt rel = inl UndefinedTable.
Proof. intros H. unfold execute. by rewrite H. Qed.

Section SingleKeyAgain.
Context (s : Schema) (oc : OnConflictDoUpdate) (c : string).
Hypothesis Harbiter : index_elements oc = [c].
Hypothesis Hindexes : unique_indexes s = [[c]].
Hypothesis Hkeep : ∀ p r, assign (set_ oc) p r !! c = r !! c.

(** Proposing what is already there changes nothing. *)
Lemma upsert_rows_again (ps : list Row) :
  ∀ (rs : list Row) (touched : list nat),
  unique_on [c] rs →
  NoDup ((λ p : Row, p !! c) <$> ps) →
  Forall (admissible s oc c) ps →
  Forall (λ p, ∃ i r, rs !! i = Some r ∧ r !! c = p !! c ∧ assign (set_ oc) p r = r) ps →
  (∀ i, i ∈ touched → ∃ r, rs !! i = Some r ∧ r !! c ∉ (λ p : Row, p !! c) <$> ps) →
  upsert_rows s oc ps rs touched = inr rs.
Proof.
  induction ps as [|p ps IH]; intros rs touched Huniq Hnd Hall Hthere Htouched; [done|].
  rewrite fmap_cons in Hnd. apply NoDup_cons in Hnd as [Hfresh Hnd].
  apply Forall_cons in Hall as [Hadm Hall].
  pose proof Hadm as (_ & _ & _ & Hkey & _).
  apply Forall_cons in Hthere as [(j & r & Hj & Hrk & Hfix) Hthere].
  destruct (upsert_rows_step s oc c Harbiter Hindexes Hkeep p ps rs touched
              Huniq Hadm)
    as (i & r' & rs1 & Heq & Hi1 & Hk1 & Hnt & Hshape & Huniq1).
  { intros k (r0 & Hr0 & Hnk)%Htouched. exists r0. split; [done|].
    intros E. apply Hnk. rewrite fmap_cons, E. apply elem_of_cons. by left. }
  assert (rs1 = rs) as ->.
  { destruct Hshape as [(Hnone & -> & ->)|(r0 & Hr0 & Hr0k & -> & ->)].
    - assert (j = i) as ->.
      { apply (Huniq1 j i r p); [by apply lookup_app_l_Some | done |].
        apply conflicts_single. by rewrite Hrk. }
      congruence.
    - assert (j = i) as ->.
      { apply (Huniq j i r r0 Hj Hr0). apply conflicts_single.
        rewrite Hrk, Hr0k. done. }
      rewrite Hj in Hr0. injection Hr0 as <-. rewrite Hfix.
      by apply list_insert_id. }
  rewrite Heq. apply IH; [done..|].
  intros k [->|Hk]%elem_of_cons.
  - exists r'. split; [done|]. by rewrite Hk1.
  - destruct (Htouched k Hk) as (r0 & Hr0 & Hnk). exists r0. split; [done|].
    rewrite fmap_cons, not_elem_of_cons in Hnk. by destruct Hnk.
Qed.

(** One proposed row and the keys of the table: a key the table has stays
    where it is, a key it lacks is added at the end. *)
Lemma upsert_rows_one_keys (p : Row) (rs : list Row) :
  unique_on [c] rs →
  admissible s oc c p →
  ∃ rs',
    upsert_rows s oc [p] rs [] = inr rs' ∧
    unique_on [c] rs' ∧
    (λ r : Row, r !! c) <$> rs' =
      if decide (p !! c ∈ (λ r : Row, r !! c) <$> rs)
      then (λ r : Row, r !! c) <$> rs
      else ((λ r : Row, r !! c) <$> rs) ++ [p !! c].
Proof.
  intros Huniq Hadm. pose proof Hadm as (_ & _ & _ & Hkey & _).
  destruct (upsert_rows_step s oc c Harbiter Hindexes Hkeep p [] rs [] Huniq Hadm)
    as (i & r' & rs1 & Heq & Hi1 & Hk1 & _ & Hshape & Huniq1).
  { intros k Hk. by apply elem_of_nil in Hk. }
  exists rs1. split; [done|]. split; [done|].
  destruct Hshape as [(Hnone & -> & ->)|(r0 & Hr0 & Hr0k & -> & ->)].
  - rewrite decide_False; [by rewrite fmap_app|].
    intros (r & Hrk & (j & Hj)%list_elem_of_lookup)%list_elem_of_fmap.
    assert (j = i) as ->; [|congruence].
    apply (Huniq1 j i r p); [by apply lookup_app_l_Some | done |].
    apply conflicts_single. by rewrite <- Hrk.
  - rewrite decide_True.
    + rewrite list_fmap_insert. apply list_insert_id.
      rewrite list_lookup_fmap, Hr0. cbn. by rewrite Hkeep.
    + apply list_elem_of_fmap. exists r0. split; [done|].
      by eapply list_elem_of_lookup_2.
Qed.

End SingleKeyAgain.

End UpsertFacts.
(* ===================================================================== *)
(** ** The key-value store *)
(* ===================================================================== *)

Section KeyValueStore.
Import Sql RunStorage.

Variable KeyValueStoreTable : Schema.

Lemma kv_row_key (kv : string * string) : kv_row kv !! "key" = Some (VText kv.1).
Proof. unfold kv_row. rewrite row_of_cons. apply lookup_insert_eq. Qed.

Lemma kv_row_value (kv : string * string) : kv_row kv !! "value" = Some (VText kv.2).
Proof.
  unfold kv_row. rewrite !row_of_cons, lookup_insert_ne by done.
  apply lookup_insert_eq.
Qed.

Lemma kv_assign (kv : string * string) (r : Row) :
  assign [("value", Excluded "value")] (kv_row kv) r = <["value" := VText kv.2]> r.
Proof. rewrite assign_cons, assign_nil. cbn [eval]. by rewrite kv_row_value. Qed.

(** The check lets a [dict] of strings through, and the statement built
    from it is [kvs_upsert]. *)
Lemma mapping_param_dict (kvs : list (string * string)) :
  Py.mapping_param (Py.str_mapping kvs) "pairs" Py.str Py.str = inr (Py.str_mapping kvs).
Proof.
  unfold Py.mapping_param, Py.str_mapping.
  replace (forallb _ _) with true; [done|].
  symmetry. apply forallb_forall. intros [a b] Hin.
  apply list_elem_of_In, list_elem_of_fmap in Hin as (kv & [= -> ->] & _). done.
Qed.

Lemma kvs_set_dict (self : PostgresRunStorage) (kvs : list (string * string)) (w : World) :
  kvs_set KeyValueStoreTable self (Py.str_mapping kvs) w =
  conn_execute {| engine := _engine self |} (kvs_upsert KeyValueStoreTable kvs) w.
Proof.
  unfold kvs_set. rewrite mapping_param_dict.
  unfold Py.str_mapping, kvs_upsert; cbn [Py.items lift bind ret connect].
  rewrite <- list_fmap_compose. done.
Qed.

Lemma conn_execute_unfold (conn : Connection) (stmt : Insert) (w : World) :
  conn_execute conn stmt w =
  if sendable stmt then
    match execute stmt (relations (database w)) with
    | inl e =>
        (inl e, {| database := database w; round_trips := round_trips w ++ [Execute stmt] |})
    | inr rel' =>
        (inr tt,
         {| database := {| relations := rel';
                           migration_markers := migration_markers (database w) |};
            round_trips := round_trips w ++ [Execute stmt] |})
    end
  else (inl ValueError, w).
Proof.
  unfold conn_execute. destruct (sendable stmt); [|done].
  unfold bind, round_trip, get_relations, put_relations; cbn.
  by destruct (execute stmt (relations (database w))).
Qed.

Lemma kvs_upsert_table kvs : table (kvs_upsert KeyValueStoreTable kvs) = name KeyValueStoreTable.
Proof. done. Qed.

Lemma kvs_upsert_on_conflict kvs :
  on_conflict (kvs_upsert KeyValueStoreTable kvs) = Some kvs_conflict.
Proof. done. Qed.

Lemma kvs_upsert_values kvs :
  kvs ≠ [] → values (kvs_upsert KeyValueStoreTable kvs) = kv_row <$> kvs.
Proof.
  intros Hne. unfold kvs_upsert; cbn [values with_returning on_conflict_do_update values_multi].
  rewrite <- list_fmap_compose. by destruct kvs.
Qed.

Lemma kvs_keep (p r : Row) : assign (set_ kvs_conflict) p r !! "key" = r !! "key".
Proof.
  apply assign_lookup_ne. cbn. intros [H|H%elem_of_nil]%elem_of_cons; done.
Qed.

Lemma kv_row_adaptable (kv : string * string) :
  has_nul kv.1 = false → has_nul kv.2 = false → row_adaptable (kv_row kv) = true.
Proof.
  intros Hk Hv. unfold kv_row. rewrite !row_of_cons, row_of_nil.
  apply row_adaptable_insert; [by cbn; rewrite Hk|].
  apply row_adaptable_insert; [by cbn; rewrite Hv|].
  apply row_adaptable_empty.
Qed.

(** The driver takes the statement when no text of the entries holds a NUL. *)
Lemma kvs_upsert_sendable (kvs : list (string * string)) :
  Forall (λ kv, has_nul kv.1 = false ∧ has_nul kv.2 = false) kvs →
  sendable (kvs_upsert KeyValueStoreTable kvs) = true.
Proof.
  intros Hall. unfold sendable. rewrite kvs_upsert_on_conflict.
  cbn [set_ kvs_conflict forallb snd]. rewrite !andb_true_r.
  destruct (decide (kvs = [])) as [->|Hne]; [done|].
  rewrite kvs_upsert_values by done. apply forallb_forall.
  intros p (kv & -> & Hkv)%list_elem_of_In%list_elem_of_fmap.
  rewrite Forall_forall in Hall. destruct (Hall kv Hkv). by apply kv_row_adaptable.
Qed.

Lemma kvs_set_fits (limits : list (string * nat)) (kv : string * string) :
  fits limits (kv_row kv) = true →
  set_fits limits (set_ kvs_conflict) (kv_row kv) = true.
Proof.
  apply set_fits_of_fits. cbn [set_ kvs_conflict].
  apply Forall_singleton. reflexivity.
Qed.

Lemma kv_rows_admissible (s : Schema) (kvs : list (string * string)) :
  (∀ c, c ∈ not_null s → c ∈ ["key"; "value"]) →
  Forall (λ kv, fits (max_length s) (kv_row kv) = true) kvs →
  Forall (admissible s kvs_conflict "key") (kv_row <$> kvs).
Proof.
  intros Hnn Hfits. apply Forall_fmap. eapply Forall_impl; [exact Hfits|].
  intros kv Hkv. cbv [compose].
  split; [done|]. split; [by apply kvs_set_fits|]. split; [|split].
  - apply has_columns_true. intros c [->|[->|[]%elem_of_nil]%elem_of_cons]%Hnn%elem_of_cons.
    + by rewrite kv_row_key.
    + by rewrite kv_row_value.
  - by rewrite kv_row_key.
  - intros r Hr. rewrite kv_assign. apply has_columns_true.
    intros c [->|[->|[]%elem_of_nil]%elem_of_cons]%Hnn%elem_of_cons.
    + rewrite lookup_insert_ne by done. by rewrite Hr, kv_row_key.
    + by rewrite lookup_insert_eq.
Qed.

(** What [storable] says of the entries, against the table found. *)
Lemma storable_table (w : World) (tb : Table) (kvs : list (string * string)) :
  relations (database w) !! name KeyValueStoreTable = Some tb →
  Forall (storable w KeyValueStoreTable) kvs →
  Forall (λ kv, has_nul kv.1 = false ∧ has_nul kv.2 = false) kvs ∧
  Forall (λ kv, fits (max_length (schema tb)) (kv_row kv) = true) kvs.
Proof.
  intros Htb Hall. split; (eapply Forall_impl; [exact Hall|]).
  - by intros kv (? & ? & _).
  - intros kv (_ & _ & Hfits). unfold table_limits in Hfits. by rewrite Htb in Hfits.
Qed.

Lemma kv_rows_keys (kvs : list (string * string)) :
  (λ p : Row, p !! "key") <$> (kv_row <$> kvs) = (λ kv, Some (VText kv.1)) <$> kvs.
Proof.
  rewrite <- list_fmap_compose. apply list_fmap_ext. intros _ kv _. apply kv_row_key.
Qed.

Lemma kv_keys_NoDup (kvs : list (string * string)) :
  NoDup kvs.*1 ↔ NoDup ((λ kv, Some (VText kv.1)) <$> kvs).
Proof.
  replace ((λ kv : string * string, Some (VText kv.1)) <$> kvs)
    with ((λ k, Some (VText k)) <$> kvs.*1)
    by (by rewrite <- list_fmap_compose).
  split.
  - apply NoDup_fmap_2. by intros k1 k2 [=].
  - apply NoDup_fmap_1.
Qed.

(** The statement for a non-empty [dict], run against a well-formed table. *)
Lemma kvs_upsert_execute (kvs : list (string * string))
    (rel : gmap string Table) (tb : Table) :
  rel !! name KeyValueStoreTable = Some tb →
  unique_indexes (schema tb) = [["key"]] →
  (∀ c, c ∈ not_null (schema tb) → c ∈ ["key"; "value"]) →
  unique_on ["key"] (rows tb) →
  Forall (λ kv, fits (max_length (schema tb)) (kv_row kv) = true) kvs →
  NoDup kvs.*1 → kvs ≠ [] →
  ∃ rs',
    execute (kvs_upsert KeyValueStoreTable kvs) rel =
      inr (<[name KeyValueStoreTable := {| schema := schema tb; rows := rs' |}]> rel) ∧
    unique_on ["key"] rs' ∧
    (∀ j r0, r0 !! "key" ∉ (λ kv, Some (VText kv.1)) <$> kvs →
             rs' !! j = Some r0 ↔ rows tb !! j = Some r0) ∧
    (∀ kv, kv ∈ kvs → ∃ i r',
       rs' !! i = Some r' ∧ r' !! "key" = Some (VText kv.1) ∧
       r' !! "value" = Some (VText kv.2)).
Proof.
  intros Htb Hidx Hnn Huniq Hfits Hnd Hne.
  destruct (upsert_rows_batch (schema tb) kvs_conflict "key" eq_refl Hidx kvs_keep
              (kv_row <$> kvs) (rows tb) [] Huniq)
    as (rs' & Hrun & Huniq' & _ & Hframe & Hwritten).
  { rewrite kv_rows_keys. by apply kv_keys_NoDup. }
  { by apply kv_rows_admissible. }
  { intros i Hi. by apply elem_of_nil in Hi. }
  exists rs'. split; [|split; [done|split]].
  - unfold execute. rewrite kvs_upsert_table, Htb, kvs_upsert_on_conflict.
    cbn [index_elements kvs_conflict]. rewrite Hidx.
    rewrite bool_decide_eq_true_2 by (apply list_elem_of_singleton; done).
    rewrite kvs_upsert_values by done. fold kvs_conflict. by rewrite Hrun.
  - intros j r0 Hr0. apply Hframe. by rewrite kv_rows_keys.
  - intros kv Hkv.
    destruct (Hwritten (kv_row kv)) as (i & r' & Hi & Hk & Hshape).
    { apply list_elem_of_fmap. by exists kv. }
    exists i, r'. split; [done|]. rewrite kv_row_key in Hk. split; [done|].
    destruct Hshape as [[_ ->]|(r & _ & _ & ->)].
    + apply kv_row_value.
    + cbn [set_ kvs_conflict]. rewrite kv_assign. apply lookup_insert_eq.
Qed.

Lemma stored_under_unique (rs : list Row) (kcol : string) (k : Value) (i : nat) (r : Row) :
  unique_on [kcol] rs → rs !! i = Some r → r !! kcol = Some k →
  stored_under rs kcol k r.
Proof.
  intros Huniq Hi Hk. exists i. split; [done|]. split; [done|].
  intros j r' Hj Hk'. apply (Huniq j i r' r Hj Hi).
  apply conflicts_single. rewrite Hk, Hk'. split; [done | by eexists].
Qed.

Lemma table_rows_insert (w : World) (rel : gmap string Table) (log : list RoundTrip)
    (s : Schema) (rs : list Row) :
  table_rows {| database := {| relations := <[name KeyValueStoreTable :=
                                   {| schema := s; rows := rs |}]> rel;
                               migration_markers := migration_markers (database w) |};
                round_trips := log |} KeyValueStoreTable = rs.
Proof. unfold table_rows; cbn. by rewrite lookup_insert_eq. Qed.

(** A [dict] goes through as one statement, and every entry is then the
    one row stored under its key. *)
Lemma kvs_set_dict_stores (self : PostgresRunStorage) (kvs : list (string * string))
    (w : World) :
  keyed_table w KeyValueStoreTable "key" ["key"; "value"] →
  Forall (storable w KeyValueStoreTable) kvs →
  NoDup kvs.*1 → kvs ≠ [] →
  ∃ w',
    kvs_set KeyValueStoreTable self (Py.str_mapping kvs) w = (inr tt, w') ∧
    round_trips w' = round_trips w ++ [Execute (kvs_upsert KeyValueStoreTable kvs)] ∧
    keyed_table w' KeyValueStoreTable "key" ["key"; "value"] ∧
    table_limits w' KeyValueStoreTable = table_limits w KeyValueStoreTable ∧
    (∀ k v, (k, v) ∈ kvs →
       ∃ r, stored_under (table_rows w' KeyValueStoreTable) "key" (VText k) r ∧
            r !! "value" = Some (VText v)).
Proof.
  intros (tb & Htb & Hidx & Hnn & Huniq) Hst Hnd Hne.
  destruct (storable_table w tb kvs Htb Hst) as [Hnul Hfits].
  destruct (kvs_upsert_execute kvs _ tb Htb Hidx Hnn Huniq Hfits Hnd Hne)
    as (rs' & Hexec & Huniq' & _ & Hwritten).
  rewrite kvs_set_dict, conn_execute_unfold, kvs_upsert_sendable, Hexec by done.
  eexists. split; [done|]. split; [done|]. split; [|split].
  - exists {| schema := schema tb; rows := rs' |}. cbn.
    rewrite lookup_insert_eq. done.
  - unfold table_limits; cbn [database relations]. by rewrite lookup_insert_eq, Htb.
  - intros k v Hkv. destruct (Hwritten (k, v) Hkv) as (i & r' & Hi & Hk & Hv).
    exists r'. split; [|done]. rewrite table_rows_insert.
    by apply (stored_under_unique rs' "key" (VText k) i r').
Qed.

(** A batch that names a key twice is refused as a whole. *)
Lemma kvs_upsert_twice (kvs : list (string * string))
    (rel : gmap string Table) (tb : Table) :
  rel !! name KeyValueStoreTable = Some tb →
  unique_indexes (schema tb) = [["key"]] →
  (∀ c, c ∈ not_null (schema tb) → c ∈ ["key"; "value"]) →
  unique_on ["key"] (rows tb) →
  Forall (λ kv, fits (max_length (schema tb)) (kv_row kv) = true) kvs →
  ¬ NoDup kvs.*1 →
  execute (kvs_upsert KeyValueStoreTable kvs) rel = inl CardinalityViolation.
Proof.
  intros Htb Hidx Hnn Huniq Hfits Hdup.
  assert (kvs ≠ []) as Hne.
  { intros ->. apply Hdup. constructor. }
  unfold execute. rewrite kvs_upsert_table, Htb, kvs_upsert_on_conflict.
  cbn [index_elements kvs_conflict]. rewrite Hidx.
  rewrite bool_decide_eq_true_2 by (apply list_elem_of_singleton; done).
  rewrite kvs_upsert_values by done. fold kvs_conflict.
  rewrite (upsert_rows_twice (schema tb) kvs_conflict "key" eq_refl Hidx kvs_keep); [done|done| | |].
  - by apply kv_rows_admissible.
  - intros i Hi. by apply elem_of_nil in Hi.
  - right. rewrite kv_rows_keys. by rewrite <- kv_keys_NoDup.
Qed.

(** Whatever the entries and whatever the table, a successful statement
    rewrites the one table, and in it no row under a key the entries do not
    name. *)
Lemma kvs_upsert_frame (kvs : list (string * string))
    (rel rel' : gmap string Table) :
  execute (kvs_upsert KeyValueStoreTable kvs) rel = inr rel' →
  ∃ tb rs',
    rel !! name KeyValueStoreTable = Some tb ∧
    rel' = <[name KeyValueStoreTable := {| schema := schema tb; rows := rs' |}]> rel ∧
    ∀ j r0 k, k ∉ kvs.*1 → r0 !! "key" = Some (VText k) →
              rs' !! j = Some r0 ↔ rows tb !! j = Some r0.
Proof.
  intros Hexec.
  destruct (execute_upsert_inv _ _ _ _ (kvs_upsert_on_conflict kvs) Hexec)
    as (tb & rs' & Htb & Hrun & ->).
  rewrite kvs_upsert_table in Htb. exists tb, rs'. split; [done|]. split; [done|].
  intros j r0 k Hk Hr0.
  apply (upsert_rows_frame (schema tb) kvs_conflict "key" eq_refl kvs_keep _ _ _ _ Hrun).
  rewrite Hr0. destruct (decide (kvs = [])) as [->|Hne].
  - change (values (kvs_upsert KeyValueStoreTable [])) with [(∅ : Row)].
    intros [E|[]%elem_of_nil]%elem_of_cons. by rewrite lookup_empty in E.
  - rewrite kvs_upsert_values, kv_rows_keys by done.
    intros ([k' v'] & [= ->] & Hin)%list_elem_of_fmap.
    apply Hk. apply list_elem_of_fmap. by exists (k', v').
Qed.

(** What the parameter check makes of each argument. *)
Lemma mapping_param_cases (pairs : Py.Object) :
  (∃ kvs, pairs = Py.str_mapping kvs) ∨
  (Py.mapping_param pairs "pairs" Py.str Py.str = inl CheckError ∧
   ∀ kvs, pairs ≠ Py.str_mapping kvs).
Proof.
  destruct pairs as [a|l|entries]; [by right | by right |].
  induction entries as [|[k v] entries IH].
  - left. by exists [].
  - destruct k as [| | |k]; try (right; split; [done|]; by intros [|[??]?]).
    destruct v as [| | |v]; try (right; split; [done|]; by intros [|[??]?]).
    destruct IH as [[kvs [= ->]]|[Hcheck Hnot]].
    + left. by exists ((k, v) :: kvs).
    + right. split.
      * unfold Py.mapping_param in *. cbn [forallb fst snd Py.isinstance andb].
        by destruct (forallb _ entries).
      * intros [|[k' v'] kvs] [= E1 E2 E3]. by apply (Hnot kvs); subst.
Qed.

(** The call either commits the whole statement or leaves the database as
    it was. *)
Lemma kvs_set_atomic (self : PostgresRunStorage) (kvs : list (string * string)) (w : World) :
  ∃ res w',
    kvs_set KeyValueStoreTable self (Py.str_mapping kvs) w = (res, w') ∧
    ((∃ rel', execute (kvs_upsert KeyValueStoreTable kvs) (relations (database w)) = inr rel' ∧
              res = inr tt ∧ relations (database w') = rel') ∨
     (∃ e, res = inl e) ∧ database w' = database w) ∧
    migration_markers (database w') = migration_markers (database w).
Proof.
  rewrite kvs_set_dict, conn_execute_unfold.
  destruct (sendable _).
  - destruct (execute _ _) as [e|rel'] eqn:Hexec; eexists _, _; (split; [done|]).
    + split; [|done]. right. split; [by exists e | done].
    + split; [|done]. left. by exists rel'.
  - eexists _, _. split; [done|]. split; [|done]. right. split; [by eexists | done].
Qed.



(** C9.  Whatever mapping [kvs_set] is given, a key the mapping does not
    name keeps its row: the same row at the same place before and after,
    present after exactly when it was before.  The other tables and the
    migration markers are not touched either. *)
Theorem kvs_set_leaves_other_keys
    (self : PostgresRunStorage) (kvs : list (string * string)) (w : World) (k : string) :
  keyed_table w KeyValueStoreTable "key" ["key"; "value"] →
  k ∉ kvs.*1 →
  ∃ res w',
    kvs_set KeyValueStoreTable self (Py.str_mapping kvs) w = (res, w') ∧
    (∀ i r, r !! "key" = Some (VText k) →
       table_rows w' KeyValueStoreTable !! i = Some r ↔
       table_rows w KeyValueStoreTable !! i = Some r) ∧
    (∀ t, t ≠ name KeyValueStoreTable →
       relations (database w') !! t = relations (database w) !! t) ∧
    migration_markers (database w') = migration_markers (database w).
Proof.
  intros _ Hk.
  destruct (kvs_set_atomic self kvs w) as (res & w' & Hrun & Hres & Hmarkers).
  exists res, w'. split; [done|]. split; [|split; [|done]].
  - destruct Hres as [(rel' & Hexec & _ & Hrel)|[_ Hdb]].
    + destruct (kvs_upsert_frame kvs _ rel' Hexec) as (tb & rs' & Htb & -> & Hframe).
      intros i r Hr. unfold table_rows. rewrite Hrel, lookup_insert_eq, Htb. cbn.
      by apply (Hframe i r k).
    + intros i r _. unfold table_rows. by rewrite Hdb.
  - destruct Hres as [(rel' & Hexec & _ & Hrel)|[_ Hdb]].
    + destruct (kvs_upsert_frame kvs _ rel' Hexec) as (tb & rs' & Htb & -> & _).
      intros t Ht. by rewrite Hrel, lookup_insert_ne.
    + intros t _. by rewrite Hdb.
Qed.

(** C6, as the code has it.  A mapping names each key once, and then (its
    texts holding no NUL character and respecting the length bounds of the
    table) the value stored for a key is the mapping's value for it.  A
    batch whose entries name a key twice is not resolved to the last value:
    the one statement is refused with a cardinality violation, [kvs_set]
    raises, and the database is left as it was. *)
Theorem kvs_set_repeated_key_refused
    (self : PostgresRunStorage) (kvs : list (string * string)) (w : World) :
  keyed_table w KeyValueStoreTable "key" ["key"; "value"] →
  Forall (storable w KeyValueStoreTable) kvs →
  (NoDup kvs.*1 → kvs ≠ [] →
     ∃ w', kvs_set KeyValueStoreTable self (Py.str_mapping kvs) w = (inr tt, w') ∧
           ∀ k v, (k, v) ∈ kvs →
             ∃ r, stored_under (table_rows w' KeyValueStoreTable) "key" (VText k) r ∧
                  r !! "value" = Some (VText v)) ∧
  (¬ NoDup kvs.*1 →
     kvs_set KeyValueStoreTable self (Py.str_mapping kvs) w =
       (inl CardinalityViolation,
        {| database := database w;
           round_trips := round_trips w ++ [Execute (kvs_upsert KeyValueStoreTable kvs)] |})).
Proof.
  intros Htable Hst. split.
  - intros Hnd Hne.
    destruct (kvs_set_dict_stores self kvs w Htable Hst Hnd Hne)
      as (w' & Hrun & _ & _ & _ & Hstored).
    by exists w'.
  - intros Hdup. destruct Htable as (tb & Htb & Hidx & Hnn & Huniq).
    destruct (storable_table w tb kvs Htb Hst) as [Hnul Hfits].
    rewrite kvs_set_dict, conn_execute_unfold, kvs_upsert_sendable by done.
    by rewrite (kvs_upsert_twice kvs _ tb Htb Hidx Hnn Huniq Hfits Hdup).
Qed.

(** C10.  An argument that is not a mapping of strings to strings makes
    [kvs_set] raise the check error with the world exactly as it was: no
    statement went over a connection and no row changed. *)
Theorem kvs_set_checks_first
    (self : PostgresRunStorage) (pairs : Py.Object) (w : World) :
  (∀ kvs, pairs ≠ Py.str_mapping kvs) →
  kvs_set KeyValueStoreTable self pairs w = (inl CheckError, w).
Proof.
  intros Hnot. destruct (mapping_param_cases pairs) as [[kvs ->]|[Hcheck _]].
  - by destruct (Hnot kvs).
  - unfold kvs_set. by rewrite Hcheck.
Qed.

End KeyValueStore.

Section KeyValueStoreExamples.
Import Sql RunStorage.

Lemma with_a0_keyed : keyed_table Demo.with_a0 Demo.kvs "key" ["key"; "value"].
Proof.
  exists {| schema := Demo.kvs; rows := [kv_row ("a", "0")] |}.
  split; [reflexivity|]. split; [reflexivity|]. split.
  - intros c Hc. apply elem_of_cons. left. by apply list_elem_of_singleton in Hc.
  - apply unique_on_singleton.
Qed.

Lemma demo_storable (kvs : list (string * string)) :
  forallb (λ kv, negb (has_nul kv.1) && negb (has_nul kv.2)) kvs = true →
  Forall (storable Demo.with_a0 Demo.kvs) kvs.
Proof.
  intros H. apply Forall_forall. intros kv Hkv%list_elem_of_In.
  rewrite forallb_forall in H.
  apply H, andb_true_iff in Hkv as [Hk%negb_true_iff Hv%negb_true_iff].
  by repeat split.
Qed.



Lemma kvs_set_leaves_other_keys_witness :
  keyed_table Demo.with_a0 Demo.kvs "key" ["key"; "value"] ∧
  ("a" ∉ [("b", "2")].*1) ∧
  ∃ res w',
    kvs_set Demo.kvs Demo.handle (Py.str_mapping [("b", "2")]) Demo.with_a0
      = (res, w') ∧
    (∀ i r, r !! "key" = Some (VText "a") →
       table_rows w' Demo.kvs !! i = Some r ↔
       table_rows Demo.with_a0 Demo.kvs !! i = Some r) ∧
    (∀ t, t ≠ name Demo.kvs →
       relations (database w') !! t = relations (database Demo.with_a0) !! t) ∧
    migration_markers (database w') = migration_markers (database Demo.with_a0).
Proof.
  split; [exact with_a0_keyed|].
  assert ("a" ∉ [("b", "2")].*1) as Hk
    by (refine (bool_decide_unpack _ _); vm_compute; exact I).
  split; [exact Hk|].
  exact (kvs_set_leaves_other_keys Demo.kvs Demo.handle
           [("b", "2")] Demo.with_a0 "a" with_a0_keyed Hk).
Defined.

(** C6 as stated fails: the batch names ["a"] twice, last with ["2"]; the
    call raises and the row under ["a"] still holds ["0"]. *)
Lemma kvs_set_repeated_key_counterexample :
  let call :=
    kvs_set Demo.kvs Demo.handle
      (Py.Mapping [(Py.PStr "a", Py.PStr "1"); (Py.PStr "a", Py.PStr "2")])
      Demo.with_a0 in
  call.1 = inl CardinalityViolation ∧
  (λ r : Row, (r !! "key", r !! "value")) <$> table_rows call.2 Demo.kvs =
    [(Some (VText "a"), Some (VText "0"))].
Proof. vm_compute. split; reflexivity. Qed.

Lemma kvs_set_repeated_key_refused_witness :
  keyed_table Demo.with_a0 Demo.kvs "key" ["key"; "value"] ∧
  Forall (storable Demo.with_a0 Demo.kvs) [("a", "1"); ("a", "2")] ∧
  (NoDup [("a", "1"); ("a", "2")].*1 → [("a", "1"); ("a", "2")] ≠ [] →
     ∃ w', kvs_set Demo.kvs Demo.handle
             (Py.str_mapping [("a", "1"); ("a", "2")]) Demo.with_a0 = (inr tt, w') ∧
           ∀ k v, (k, v) ∈ [("a", "1"); ("a", "2")] →
             ∃ r, stored_under (table_rows w' Demo.kvs) "key" (VText k) r ∧
                  r !! "value" = Some (VText v)) ∧
  (¬ NoDup [("a", "1"); ("a", "2")].*1 →
     kvs_set Demo.kvs Demo.handle
       (Py.str_mapping [("a", "1"); ("a", "2")]) Demo.with_a0 =
       (inl CardinalityViolation,
        {| database := database Demo.with_a0;
           round_trips := round_trips Demo.with_a0 ++
             [Execute (kvs_upsert Demo.kvs [("a", "1"); ("a", "2")])] |})).
Proof.
  split; [exact with_a0_keyed|].
  split; [exact (demo_storable [("a", "1"); ("a", "2")] eq_refl)|].
  exact (kvs_set_repeated_key_refused Demo.kvs Demo.handle
           [("a", "1"); ("a", "2")] Demo.with_a0 with_a0_keyed
           (demo_storable [("a", "1"); ("a", "2")] eq_refl)).
Defined.

Lemma kvs_set_checks_first_witness :
  (∀ kvs, Py.Mapping [(Py.PStr "a", Py.PInt 1)] ≠ Py.str_mapping kvs) ∧
  kvs_set Demo.kvs Demo.handle (Py.Mapping [(Py.PStr "a", Py.PInt 1)])
    Demo.with_a0 = (inl CheckError, Demo.with_a0).
Proof.
  assert (∀ kvs, Py.Mapping [(Py.PStr "a", Py.PInt 1)] ≠ Py.str_mapping kvs) as Hnot
    by (intros [|[??]?]; done).
  split; [exact Hnot|].
  exact (kvs_set_checks_first Demo.kvs Demo.handle
           (Py.Mapping [(Py.PStr "a", Py.PInt 1)]) Demo.with_a0 Hnot).
Defined.

End KeyValueStoreExamples.
(* ===================================================================== *)
(** ** Daemon heartbeats *)
(* ===================================================================== *)

Section Heartbeats.
Import Sql RunStorage.

Context {float : Type}.
Variable utc_datetime_from_timestamp : float → Error + Z.
Variable DaemonHeartbeatsTable : Schema.
Variable serialize_value : @DaemonHeartbeat float → string.

Local Abbreviation add_daemon_heartbeat :=
  (add_daemon_heartbeat utc_datetime_from_timestamp DaemonHeartbeatsTable serialize_value).
Local Abbreviation add_daemon_heartbeats :=
  (add_daemon_heartbeats utc_datetime_from_timestamp DaemonHeartbeatsTable serialize_value).
Local Abbreviation heartbeat_row := (heartbeat_row serialize_value).
Local Abbreviation heartbeat_conflict := (heartbeat_conflict serialize_value).
Local Abbreviation heartbeat_upsert :=
  (heartbeat_upsert DaemonHeartbeatsTable serialize_value).
Local Abbreviation reflects := (reflects utc_datetime_from_timestamp serialize_value).
Local Abbreviation deliverable :=
  (deliverable utc_datetime_from_timestamp DaemonHeartbeatsTable serialize_value).

(** The timestamp is converted before anything is sent. *)
Lemma add_daemon_heartbeat_unfold (self : PostgresRunStorage) (hb : DaemonHeartbeat)
    (w : World) :
  add_daemon_heartbeat self hb w =
  match utc_datetime_from_timestamp (timestamp hb) with
  | inr ts => conn_execute {| engine := _engine self |} (heartbeat_upsert ts hb) w
  | inl e => (inl e, w)
  end.
Proof.
  unfold RunStorage.add_daemon_heartbeat, bind, connect, ret.
  by destruct (utc_datetime_from_timestamp (timestamp hb)).
Qed.

Lemma heartbeat_row_timestamp (ts : Z) (hb : DaemonHeartbeat) :
  heartbeat_row ts hb !! "timestamp" = Some (VTimestamp ts).
Proof. unfold RunStorage.heartbeat_row. rewrite row_of_cons. apply lookup_insert_eq. Qed.

Lemma heartbeat_row_type (ts : Z) (hb : DaemonHeartbeat) :
  heartbeat_row ts hb !! "daemon_type" = Some (VText (daemon_type hb)).
Proof.
  unfold RunStorage.heartbeat_row. rewrite !row_of_cons, lookup_insert_ne by done.
  apply lookup_insert_eq.
Qed.

Lemma heartbeat_row_id (ts : Z) (hb : DaemonHeartbeat) :
  heartbeat_row ts hb !! "daemon_id" = (VText <$> daemon_id hb).
Proof.
  unfold RunStorage.heartbeat_row. rewrite !row_of_cons, !lookup_insert_ne by done.
  destruct (daemon_id hb) as [d|]; cbn [fmap option_fmap option_map].
  - rewrite row_of_cons. apply lookup_insert_eq.
  - rewrite row_of_cons_None, row_of_cons, row_of_nil, lookup_insert_ne by done.
    apply lookup_empty.
Qed.

Lemma heartbeat_row_body (ts : Z) (hb : DaemonHeartbeat) :
  heartbeat_row ts hb !! "body" = Some (VText (serialize_value hb)).
Proof.
  unfold RunStorage.heartbeat_row. rewrite !row_of_cons, !lookup_insert_ne by done.
  destruct (daemon_id hb) as [d|]; cbn [fmap option_fmap option_map].
  - rewrite !row_of_cons, lookup_insert_ne by done. apply lookup_insert_eq.
  - rewrite row_of_cons_None, row_of_cons. apply lookup_insert_eq.
Qed.

Lemma heartbeat_row_reflects (ts : Z) (hb : DaemonHeartbeat) :
  utc_datetime_from_timestamp (timestamp hb) = inr ts →
  reflects (heartbeat_row ts hb) hb.
Proof.
  intros Hts. split; [|split].
  - exists ts. split; [done|]. apply heartbeat_row_timestamp.
  - apply heartbeat_row_id.
  - apply heartbeat_row_body.
Qed.

Lemma heartbeat_assign (ts : Z) (hb : DaemonHeartbeat) (p r : Row) :
  assign (set_ (heartbeat_conflict ts hb)) p r =
  <["body" := VText (serialize_value hb)]>
    (match daemon_id hb with
     | Some d => <["daemon_id" := VText d]> (<["timestamp" := VTimestamp ts]> r)
     | None => delete "daemon_id" (<["timestamp" := VTimestamp ts]> r)
     end).
Proof.
  cbn [set_ RunStorage.heartbeat_conflict]. rewrite !assign_cons, assign_nil.
  cbn [eval]. by destruct (daemon_id hb).
Qed.

Lemma heartbeat_assign_reflects (ts : Z) (hb : DaemonHeartbeat) (p r : Row) :
  utc_datetime_from_timestamp (timestamp hb) = inr ts →
  reflects (assign (set_ (heartbeat_conflict ts hb)) p r) hb.
Proof.
  intros Hts. rewrite heartbeat_assign. split; [|split].
  - exists ts. split; [done|]. rewrite lookup_insert_ne by done.
    destruct (daemon_id hb).
    + rewrite lookup_insert_ne by done. apply lookup_insert_eq.
    + rewrite lookup_delete_ne by done. apply lookup_insert_eq.
  - rewrite lookup_insert_ne by done. destruct (daemon_id hb).
    + apply lookup_insert_eq.
    + apply lookup_delete_eq.
  - apply lookup_insert_eq.
Qed.

Lemma heartbeat_keep (ts : Z) (hb : DaemonHeartbeat) (p r : Row) :
  assign (set_ (heartbeat_conflict ts hb)) p r !! "daemon_type" = r !! "daemon_type".
Proof.
  apply assign_lookup_ne. cbn.
  intros H. repeat (apply elem_of_cons in H as [H|H]; [done|]). by apply elem_of_nil in H.
Qed.

Lemma heartbeat_set_fits (limits : list (string * nat)) (ts : Z) (hb : DaemonHeartbeat) :
  fits limits (heartbeat_row ts hb) = true →
  set_fits limits (set_ (heartbeat_conflict ts hb)) (heartbeat_row ts hb) = true.
Proof.
  apply set_fits_of_fits. cbn [set_ RunStorage.heartbeat_conflict].
  repeat apply Forall_cons_2; [| | |apply Forall_nil_2]; cbn [eval fst snd].
  - by rewrite heartbeat_row_timestamp.
  - by rewrite heartbeat_row_id.
  - by rewrite heartbeat_row_body.
Qed.

Lemma heartbeat_row_admissible (s : Schema) (ts : Z) (hb : DaemonHeartbeat) :
  (∀ c, c ∈ not_null s → c ∈ heartbeat_columns) →
  fits (max_length s) (heartbeat_row ts hb) = true →
  admissible s (heartbeat_conflict ts hb) "daemon_type" (heartbeat_row ts hb).
Proof.
  intros Hnn Hfits.
  assert (∀ c, c ∈ heartbeat_columns →
            c = "timestamp" ∨ c = "daemon_type" ∨ c = "body") as Hcols.
  { intros c Hc. unfold heartbeat_columns in Hc.
    repeat (apply elem_of_cons in Hc as [->|Hc]; [tauto|]). by apply elem_of_nil in Hc. }
  split; [done|]. split; [by apply heartbeat_set_fits|]. split; [|split].
  - apply has_columns_true. intros c [-> | [-> | ->]]%Hnn%Hcols.
    + by rewrite heartbeat_row_timestamp.
    + by rewrite heartbeat_row_type.
    + by rewrite heartbeat_row_body.
  - by rewrite heartbeat_row_type.
  - intros r Hr. apply has_columns_true.
    intros c [-> | [-> | ->]]%Hnn%Hcols.
    + rewrite heartbeat_assign, lookup_insert_ne by done. destruct (daemon_id hb).
      * by rewrite lookup_insert_ne, lookup_insert_eq.
      * by rewrite lookup_delete_ne, lookup_insert_eq.
    + by rewrite heartbeat_keep, Hr, heartbeat_row_type.
    + by rewrite heartbeat_assign, lookup_insert_eq.
Qed.

(** The driver takes the statement of a heartbeat whose texts hold no NUL. *)
Lemma heartbeat_upsert_sendable (ts : Z) (hb : DaemonHeartbeat) :
  has_nul (daemon_type hb) = false →
  from_option has_nul false (daemon_id hb) = false →
  has_nul (serialize_value hb) = false →
  sendable (heartbeat_upsert ts hb) = true.
Proof.
  intros Htype Hid Hbody. unfold sendable.
  cbn [values on_conflict RunStorage.heartbeat_upsert set_ RunStorage.heartbeat_conflict
       forallb snd adaptable].
  rewrite Hbody. unfold RunStorage.heartbeat_row.
  destruct (daemon_id hb) as [d|]; cbn [fmap option_fmap option_map adaptable from_option] in *.
  - rewrite Hid, !row_of_cons, row_of_nil. cbn [negb andb].
    rewrite !andb_true_r.
    repeat (apply row_adaptable_insert; [by cbn; rewrite ?Htype, ?Hid, ?Hbody|]).
    apply row_adaptable_empty.
  - rewrite !row_of_cons, row_of_cons_None, row_of_cons, row_of_nil. cbn [negb andb].
    rewrite !andb_true_r.
    repeat (apply row_adaptable_insert; [by cbn; rewrite ?Htype, ?Hbody|]).
    apply row_adaptable_empty.
Qed.

(** Whether a heartbeat is deliverable depends on the world only through
    the length bounds of the table. *)
Lemma deliverable_limits (w w' : World) (hb : DaemonHeartbeat) :
  table_limits w' DaemonHeartbeatsTable = table_limits w DaemonHeartbeatsTable →
  deliverable w hb → deliverable w' hb.
Proof. intros E (ts & H). exists ts. by rewrite E. Qed.

(** One call: one statement, after which the daemon type has exactly the
    row of this heartbeat; rows of other types stand as they stood. *)
Lemma add_daemon_heartbeat_once (self : PostgresRunStorage) (hb : DaemonHeartbeat)
    (w : World) :
  keyed_table w DaemonHeartbeatsTable "daemon_type" heartbeat_columns →
  deliverable w hb →
  ∃ ts w',
    utc_datetime_from_timestamp (timestamp hb) = inr ts ∧
    add_daemon_heartbeat self hb w = (inr tt, w') ∧
    round_trips w' = round_trips w ++ [Execute (heartbeat_upsert ts hb)] ∧
    keyed_table w' DaemonHeartbeatsTable "daemon_type" heartbeat_columns ∧
    table_limits w' DaemonHeartbeatsTable = table_limits w DaemonHeartbeatsTable ∧
    (∃ r, stored_under (table_rows w' DaemonHeartbeatsTable) "daemon_type"
            (VText (daemon_type hb)) r ∧ reflects r hb) ∧
    (∀ j r0, r0 !! "daemon_type" ≠ Some (VText (daemon_type hb)) →
       table_rows w' DaemonHeartbeatsTable !! j = Some r0 ↔
       table_rows w DaemonHeartbeatsTable !! j = Some r0).
Proof.
  intros (tb & Htb & Hidx & Hnn & Huniq) (ts & Hts & Htype & Hid & Hbody & Hfits).
  unfold table_limits in Hfits. rewrite Htb in Hfits.
  destruct (upsert_rows_batch (schema tb) (heartbeat_conflict ts hb) "daemon_type"
              eq_refl Hidx (heartbeat_keep ts hb) [heartbeat_row ts hb] (rows tb) [] Huniq)
    as (rs' & Hrun & Huniq' & _ & Hframe & Hwritten).
  { apply NoDup_singleton. }
  { apply Forall_singleton. by apply heartbeat_row_admissible. }
  { intros i Hi. by apply elem_of_nil in Hi. }
  assert (execute (heartbeat_upsert ts hb) (relations (database w)) =
          inr (<[name DaemonHeartbeatsTable := {| schema := schema tb; rows := rs' |}]>
                 (relations (database w)))) as Hexec.
  { unfold execute. cbn [table on_conflict values RunStorage.heartbeat_upsert].
    rewrite Htb. cbn [index_elements RunStorage.heartbeat_conflict]. rewrite Hidx.
    rewrite bool_decide_eq_true_2 by (apply list_elem_of_singleton; done).
    fold (heartbeat_conflict ts hb). by rewrite Hrun. }
  exists ts. rewrite add_daemon_heartbeat_unfold, Hts, conn_execute_unfold.
  rewrite heartbeat_upsert_sendable, Hexec by done.
  eexists. split; [done|]. split; [done|]. split; [done|].
  unfold keyed_table, table_rows, table_limits; cbn [database relations round_trips].
  rewrite lookup_insert_eq, Htb. cbn [rows schema].
  split; [|split; [done|split]].
  - eexists. split; [done|]. by cbn.
  - destruct (Hwritten (heartbeat_row ts hb)) as (i & r' & Hi & Hk & Hshape).
    { by apply list_elem_of_singleton. }
    rewrite heartbeat_row_type in Hk.
    exists r'. split; [by apply (stored_under_unique rs' _ _ i)|].
    destruct Hshape as [[_ ->]|(r & _ & _ & ->)].
    + by apply heartbeat_row_reflects.
    + by apply heartbeat_assign_reflects.
  - intros j r0 Hne. apply Hframe.
    intros (p & E & ->%list_elem_of_singleton)%list_elem_of_fmap.
    apply Hne. rewrite E. apply heartbeat_row_type.
Qed.


End Heartbeats.

(* ===================================================================== *)
(** ** The migration index cache *)
(* ===================================================================== *)

Section IndexMigrationCache.
Import Sql RunStorage.

Lemma has_built_index_miss (self : PostgresRunStorage) (n : string) (w : World) :
  _index_migration_cache self !! n = None →
  has_built_index self n w =
    (inr (persisted w n,
          with_cache self (<[n := persisted w n]> (_index_migration_cache self))),
     logged w (SelectMigrationMarker n)).
Proof.
  intros Hmiss. unfold has_built_index. rewrite Hmiss.
  unfold bind, super_has_built_index, round_trip, ret; cbn.
  by rewrite lookup_insert_eq.
Qed.

Lemma has_built_index_hit (self : PostgresRunStorage) (n : string) (b : bool) (w : World) :
  _index_migration_cache self !! n = Some b →
  has_built_index self n w = (inr (b, self), w).
Proof.
  intros Hhit. unfold has_built_index. rewrite Hhit.
  unfold bind, ret; cbn. by rewrite Hhit.
Qed.

Lemma mark_index_built_unfold (self : PostgresRunStorage) (n : string) (w : World) :
  ∃ self',
    mark_index_built self n w =
      (inr self',
       {| database :=
            {| relations := relations (database w);
               migration_markers := <[n := true]> (migration_markers (database w)) |};
          round_trips := round_trips w ++ [WriteMigrationMarker n] |}) ∧
    _index_migration_cache self' = delete n (_index_migration_cache self) ∧
    _engine self' = _engine self.
Proof.
  unfold mark_index_built, bind, super_mark_index_built, round_trip, ret; cbn.
  destruct (_index_migration_cache self !! n) eqn:Hn.
  - by eexists.
  - exists self. split; [done|]. split; [|done]. by rewrite delete_id.
Qed.

(** C3.  Whatever the cache of the handle holds for the migration, a cached
    [false] included, [mark_index_built] followed by [has_built_index]
    answers [true]: the mark is persisted, the cache entry is dropped, and
    the question goes to the database again. *)
Theorem mark_index_built_then_has_built_index
    (self : PostgresRunStorage) (n : string) (w : World) :
  ∃ self1 w1 self2 w2,
    mark_index_built self n w = (inr self1, w1) ∧
    _index_migration_cache self1 !! n = None ∧
    has_built_index self1 n w1 = (inr (true, self2), w2) ∧
    round_trips w2 =
      round_trips w ++ [WriteMigrationMarker n; SelectMigrationMarker n].
Proof.
  destruct (mark_index_built_unfold self n w) as (self1 & Hmark & Hcache & _).
  assert (_index_migration_cache self1 !! n = None) as Hmiss
    by (rewrite Hcache; apply lookup_delete_eq).
  eexists self1, _, _, _. split; [exact Hmark|]. split; [done|].
  rewrite (has_built_index_miss _ _ _ Hmiss).
  unfold persisted, logged; cbn. rewrite lookup_insert_eq. cbn.
  split; [done|]. by rewrite <- app_assoc.
Qed.

(** The handle keeps what it cached for a migration through everything but
    a [mark_index_built] of that migration. *)
Lemma run_keeps_cached (events : list Event) (n : string) (b : bool) :
  MarkIndexBuilt n ∉ events →
  ∀ self w self' w',
    _index_migration_cache self !! n = Some b →
    run events (self, w) = (self', w') →
    _index_migration_cache self' !! n = Some b.
Proof.
  unfold run. induction events as [|ev events IH]; intros Hno self w self' w' Hb Hrun.
  - by injection Hrun as <- <-.
  - apply not_elem_of_cons in Hno as [Hev Hno]. cbn [foldl] in Hrun.
    destruct (step (self, w) ev) as [self1 w1] eqn:Hstep.
    apply (IH Hno self1 w1 self' w'); [|done].
    destruct ev as [db|m|m]; cbn [step] in Hstep.
    + by injection Hstep as <- <-.
    + destruct (_index_migration_cache self !! m) as [bm|] eqn:Hm.
      * rewrite (has_built_index_hit _ _ _ _ Hm) in Hstep. by injection Hstep as <- <-.
      * rewrite (has_built_index_miss _ _ _ Hm) in Hstep. injection Hstep as <- <-.
        cbn. rewrite lookup_insert_ne; [done|]. intros ->. congruence.
    + destruct (mark_index_built_unfold self m w) as (self2 & Hmark & Hcache & _).
      rewrite Hmark in Hstep. injection Hstep as <- <-.
      rewrite Hcache, lookup_delete_ne; [done|]. intros ->. by apply Hev.
Qed.

(** C8, as the code has it.  On a handle that has no cache entry for the
    migration (its first question about it), [has_built_index] asks the
    database once, caches the answer and returns it.  From then on, until
    [mark_index_built] of that migration is called on this handle, whatever
    else happens (other processes rewriting the database, questions about
    this or other migrations, marks of other migrations), the handle answers
    with the cached boolean and nothing goes over a connection. *)
Theorem has_built_index_caches
    (self : PostgresRunStorage) (n : string) (w : World) :
  _index_migration_cache self !! n = None →
  ∃ b self1 w1,
    has_built_index self n w = (inr (b, self1), w1) ∧
    b = persisted w n ∧
    _index_migration_cache self1 = <[n := b]> (_index_migration_cache self) ∧
    database w1 = database w ∧
    round_trips w1 = round_trips w ++ [SelectMigrationMarker n] ∧
    ∀ events self2 w2,
      MarkIndexBuilt n ∉ events →
      run events (self1, w1) = (self2, w2) →
      has_built_index self2 n w2 = (inr (b, self2), w2).
Proof.
  intros Hmiss. eexists _, _, _. split; [by apply has_built_index_miss|].
  split; [done|]. split; [done|]. split; [done|]. split; [done|].
  intros events self2 w2 Hno Hrun. apply has_built_index_hit.
  apply (run_keeps_cached events n _ Hno _ _ _ _ (lookup_insert_eq _ _ _) Hrun).
Qed.

End IndexMigrationCache.

(* ===================================================================== *)
(** ** Connection options *)
(* ===================================================================== *)

Section ConnectionOptions.
Import Sql RunStorage.

Variable pg_statement_timeout : Z → string.
Variable make_url : string → URL.

Local Abbreviation optimize_for_dagit := (optimize_for_dagit pg_statement_timeout make_url).

(** C7.  The engine [optimize_for_dagit] installs points at the same URL,
    holds one pooled connection, and passes as [options] the timeout
    directive, followed by a space and the options of the URL when the URL
    carries a non-empty [options]; the directive alone when it carries none
    (or an empty one). *)
Theorem optimize_for_dagit_keeps_options
    (self : PostgresRunStorage) (statement_timeout pool_recycle : Z) :
  let self' := optimize_for_dagit self statement_timeout pool_recycle in
  let directive := pg_statement_timeout statement_timeout in
  (∀ o, query (url (_engine self)) !! "options" = Some o → o ≠ "" →
     connect_args (_engine self') !! "options" = Some (directive +:+ " " +:+ o)) ∧
  (query (url (_engine self)) !! "options" = None →
     connect_args (_engine self') !! "options" = Some directive) ∧
  (query (url (_engine self)) !! "options" = Some "" →
     connect_args (_engine self') !! "options" = Some directive) ∧
  url (_engine self') = make_url (postgres_url self) ∧
  pool_size (_engine self') = Some 1 ∧
  RunStorage.pool_recycle (_engine self') = Some pool_recycle ∧
  postgres_url self' = postgres_url self ∧
  _index_migration_cache self' = _index_migration_cache self.
Proof.
  cbv zeta. unfold RunStorage.optimize_for_dagit, with_engine, create_engine.
  cbn [_engine connect_args url pool_size RunStorage.pool_recycle postgres_url
       _index_migration_cache].
  split; [|split; [|split]].
  - intros o -> Ho. rewrite bool_decide_eq_false_2 by done. apply lookup_singleton_eq.
  - intros ->. apply lookup_singleton_eq.
  - intros ->. apply lookup_singleton_eq.
  - done.
Qed.

End ConnectionOptions.

(* ===================================================================== *)
(** ** Construction and schema bootstrap *)
(* ===================================================================== *)

Section Bootstrap.
Import Sql RunStorage.

Variable make_url : string → URL.
Variable head : string.
Variable RunStorageSqlMetadata : list Schema.
Variable InstanceInfo : Schema.
Variable migrate optimize : PostgresRunStorage → M PostgresRunStorage.

Local Abbreviation __init__ :=
  (__init__ make_url head RunStorageSqlMetadata InstanceInfo migrate optimize).

Lemma get_table_names_unfold (e : Engine) (w : World) :
  get_table_names e w =
  (inr (elements (dom (relations (database w)))),
   {| database := database w; round_trips := round_trips w ++ [GetTableNames] |}).
Proof. reflexivity. Qed.

Lemma table_name_absent (rel : gmap string Table) (t : string) :
  bool_decide (t ∉ elements (dom rel)) = bool_decide (rel !! t = None).
Proof.
  apply bool_decide_ext. rewrite elem_of_elements, elem_of_dom.
  by rewrite eq_None_not_Some.
Qed.

(** [create_all] creates what is missing and keeps what is there. *)
Lemma create_all_fold (metadata : list Schema) :
  ∀ rel : gmap string Table,
  let rel' := foldl (λ rel s, match rel !! name s with
                              | Some _ => rel
                              | None => <[name s := {| schema := s; rows := [] |}]> rel
                              end) rel metadata in
  (∀ t tb, rel !! t = Some tb → rel' !! t = Some tb) ∧
  (∀ s, s ∈ metadata → is_Some (rel' !! name s)).
Proof.
  induction metadata as [|s metadata IH]; intros rel; cbn [foldl].
  - split; [done|]. intros s Hs. by apply elem_of_nil in Hs.
  - set (rel1 := match rel !! name s with
                 | Some _ => rel
                 | None => <[name s := {| schema := s; rows := [] |}]> rel
                 end).
    assert (∀ t tb, rel !! t = Some tb → rel1 !! t = Some tb) as Hkeep.
    { intros t tb Ht. unfold rel1. destruct (rel !! name s) eqn:Hs; [done|].
      rewrite lookup_insert_ne; [done|]. intros <-. congruence. }
    assert (is_Some (rel1 !! name s)) as Hs.
    { unfold rel1. destruct (rel !! name s) eqn:Hs; [by rewrite Hs|].
      by rewrite lookup_insert_eq. }
    destruct (IH rel1) as [Hkeep' Hall]. split.
    + intros t tb Ht. by apply Hkeep', Hkeep.
    + intros s' [->|Hs']%elem_of_cons; [|by apply Hall].
      destruct Hs as [tb Htb]. exists tb. by apply Hkeep'.
Qed.


(** The primary table exists, the shared one does not: only that one is
    created. *)
Lemma init_creates_instance_info (postgres_url : string) (w : World) :
  is_Some (relations (database w) !! "runs") →
  relations (database w) !! "instance_info" = None →
  name InstanceInfo = "instance_info" →
  ∃ self,
    __init__ postgres_url true w =
      (inr self,
       {| database :=
            {| relations :=
                 <["instance_info" := {| schema := InstanceInfo; rows := [] |}]>
                   (relations (database w));
               migration_markers := migration_markers (database w) |};
          round_trips := round_trips w ++ [GetTableNames; CreateTable "instance_info"] |}).
Proof.
  intros [tb Hruns] Hinfo Hname. eexists.
  unfold RunStorage.__init__, retry_pg_connection_fn.
  unfold bind at 1. rewrite get_table_names_unfold.
  rewrite !table_name_absent.
  rewrite bool_decide_eq_false_2 by (rewrite Hruns; done).
  rewrite bool_decide_eq_true_2 by done.
  unfold Table_create, bind, round_trip, get_relations, put_relations, raise, ret; cbn.
  rewrite Hname, Hinfo. by rewrite <- app_assoc.
Qed.



(** C5.  With the primary table there and [instance_info] missing,
    construction sends the probe and one [CREATE TABLE]: [instance_info] is
    added empty, every other table (the revision table with its stamp among
    them) and the migration markers are what they were, and no stamp is
    sent. *)
Theorem init_adds_only_instance_info (postgres_url : string) (w : World) :
  is_Some (relations (database w) !! "runs") →
  relations (database w) !! "instance_info" = None →
  name InstanceInfo = "instance_info" →
  ∃ self w',
    __init__ postgres_url true w = (inr self, w') ∧
    relations (database w') =
      <["instance_info" := {| schema := InstanceInfo; rows := [] |}]>
        (relations (database w)) ∧
    stamped_revision (database w') = stamped_revision (database w) ∧
    migration_markers (database w') = migration_markers (database w) ∧
    round_trips w' = round_trips w ++ [GetTableNames; CreateTable "instance_info"].
Proof.
  intros Hruns Hinfo Hname.
  destruct (init_creates_instance_info postgres_url w Hruns Hinfo Hname) as (self & Hrun).
  eexists self, _. split; [exact Hrun|]. cbn. split; [done|]. split; [|done].
  unfold stamped_revision; cbn. by rewrite lookup_insert_ne.
Qed.


End Bootstrap.



(* ===================================================================== *)
(** ** The statements on the example installation *)
(* ===================================================================== *)

Section Examples.
Import Sql RunStorage.

Lemma initialized_heartbeats :
  keyed_table Demo.initialized Demo.daemon_heartbeats "daemon_type" heartbeat_columns.
Proof.
  exists (Demo.empty_table Demo.daemon_heartbeats).
  split; [reflexivity|]. split; [reflexivity|]. split.
  - intros c Hc. cbn in Hc. unfold heartbeat_columns.
    apply elem_of_cons in Hc as [->|Hc]; [by apply elem_of_cons; right; left|].
    apply list_elem_of_singleton in Hc as ->. by left.
  - apply unique_on_nil.
Qed.

Lemma beat1_deliverable :
  deliverable Demo.utc_datetime_from_timestamp Demo.daemon_heartbeats
    Demo.serialize_value Demo.initialized Demo.beat1.
Proof. exists 100000000. by vm_compute. Qed.

Lemma beat2_deliverable :
  deliverable Demo.utc_datetime_from_timestamp Demo.daemon_heartbeats
    Demo.serialize_value Demo.initialized Demo.beat2.
Proof. exists 130000000. by vm_compute. Qed.



(** Two heartbeats of one daemon type leave the one row of the second. *)
Example two_heartbeats_one_row :
  (λ r : Row, (r !! "daemon_type", r !! "daemon_id", r !! "timestamp", r !! "body")) <$>
    table_rows
      (add_daemon_heartbeats Demo.utc_datetime_from_timestamp Demo.daemon_heartbeats
         Demo.serialize_value
         [(Demo.handle, Demo.beat1); (Demo.handle, Demo.beat2)]
         Demo.initialized).2
      Demo.daemon_heartbeats =
  [(Some (VText "SENSOR"), Some (VText "d-2"), Some (VTimestamp 130000000),
    Some (VText "SENSOR/d-2"))].
Proof. vm_compute. reflexivity. Qed.

(** C8 as stated fails: the handle was told [false] and cached it; after
    its own [mark_index_built] the next [has_built_index] does not return
    the cached boolean: it queries the database again and answers [true]. *)
Lemma has_built_index_requeries_counterexample :
  let '(r1, w1) := has_built_index Demo.handle "run_partitions" Demo.initialized in
  let '(self2, w2) :=
    run [HasBuiltIndex "run_partitions"; MarkIndexBuilt "run_partitions"]
      (Demo.handle, Demo.initialized) in
  let '(r3, w3) := has_built_index self2 "run_partitions" w2 in
  match r1 with inr (b, _) => Some b | inl _ => None end = Some false ∧
  round_trips w1 = [SelectMigrationMarker "run_partitions"] ∧
  match r3 with inr (b, _) => Some b | inl _ => None end = Some true ∧
  round_trips w3 = round_trips w2 ++ [SelectMigrationMarker "run_partitions"].
Proof. vm_compute. by repeat split. Qed.

Lemma has_built_index_caches_witness :
  _index_migration_cache Demo.handle !! "run_partitions" = None ∧
  ∃ b self1 w1,
    has_built_index Demo.handle "run_partitions" Demo.initialized = (inr (b, self1), w1) ∧
    b = persisted Demo.initialized "run_partitions" ∧
    _index_migration_cache self1 =
      <["run_partitions" := b]> (_index_migration_cache Demo.handle) ∧
    database w1 = database Demo.initialized ∧
    round_trips w1 =
      round_trips Demo.initialized ++ [SelectMigrationMarker "run_partitions"] ∧
    ∀ events self2 w2,
      MarkIndexBuilt "run_partitions" ∉ events →
      run events (self1, w1) = (self2, w2) →
      has_built_index self2 "run_partitions" w2 = (inr (b, self2), w2).
Proof.
  split; [reflexivity|].
  exact (has_built_index_caches Demo.handle "run_partitions" Demo.initialized eq_refl).
Defined.

(** The handle was told [false]; another process then marks the migration
    built; the handle still answers [false], without a round trip.  After
    its own [mark_index_built] it asks again and answers [true]. *)
Example stale_until_marked :
  let '(self1, w1) :=
    run [HasBuiltIndex "run_partitions"] (Demo.handle, Demo.initialized) in
  let elsewhere :=
    {| relations := relations (database Demo.initialized);
       migration_markers := {["run_partitions" := true]} |} in
  let '(self2, w2) := run [Elsewhere elsewhere] (self1, w1) in
  let '(r3, w3) := has_built_index self2 "run_partitions" w2 in
  let '(self4, w4) := run [MarkIndexBuilt "run_partitions"] (self2, w3) in
  let '(r5, w5) := has_built_index self4 "run_partitions" w4 in
  match r3 with inr (b, _) => Some b | inl _ => None end = Some false ∧
  round_trips w3 = round_trips w1 ∧
  match r5 with inr (b, _) => Some b | inl _ => None end = Some true ∧
  round_trips w5 = round_trips w3 ++
    [WriteMigrationMarker "run_partitions"; SelectMigrationMarker "run_partitions"].
Proof. vm_compute. repeat split; reflexivity. Qed.



(** Constructing twice on a database with nothing in it: the first handle
    sends the probe, the creation, the stamp and the two marks; the second
    only probes. *)
Example construct_twice :
  let init := __init__ Demo.make_url "head" Demo.metadata Demo.instance_info
                Demo.migrate Demo.optimize in
  let '(r1, w1) := init "postgresql://a" true Demo.fresh in
  let '(r2, w2) := init "postgresql://a" true w1 in
  round_trips w1 =
    [GetTableNames; CreateAll; StampAlembicRev;
     WriteMigrationMarker "run_partitions"; WriteMigrationMarker "run_start_end"] ∧
  elements (dom (relations (database w1))) ≡ₚ
    ["alembic_version"; "runs"; "secondary_indexes"; "daemon_heartbeats";
     "instance_info"; "kvs"] ∧
  database w2 = database w1 ∧
  round_trips w2 = round_trips w1 ++ [GetTableNames].
Proof.
  vm_compute. split; [reflexivity|]. split; [|split; reflexivity].
  by refine (bool_decide_unpack _ _).
Qed.

Lemma legacy_has_runs : is_Some (relations (database Demo.legacy) !! "runs").
Proof. by eexists. Qed.

Lemma init_adds_only_instance_info_witness :
  is_Some (relations (database Demo.legacy) !! "runs") ∧
  relations (database Demo.legacy) !! "instance_info" = None ∧
  name Demo.instance_info = "instance_info" ∧
  ∃ self w',
    __init__ Demo.make_url "head" Demo.metadata Demo.instance_info
      Demo.migrate Demo.optimize "postgresql://a" true Demo.legacy = (inr self, w') ∧
    relations (database w') =
      <["instance_info" := {| schema := Demo.instance_info; rows := [] |}]>
        (relations (database Demo.legacy)) ∧
    stamped_revision (database w') = stamped_revision (database Demo.legacy) ∧
    migration_markers (database w') = migration_markers (database Demo.legacy) ∧
    round_trips w' =
      round_trips Demo.legacy ++ [GetTableNames; CreateTable "instance_info"].
Proof.
  split; [exact legacy_has_runs|]. split; [reflexivity|]. split; [reflexivity|].
  exact (init_adds_only_instance_info Demo.make_url "head" Demo.metadata
           Demo.instance_info Demo.migrate Demo.optimize
           "postgresql://a" Demo.legacy legacy_has_runs eq_refl eq_refl).
Defined.

(** The URL carries [options]: they follow the timeout directive. *)
Example options_are_kept :
  let make_url (s : string) :=
    {| address := s; query := {["options" := "-c search_path=dagster"]} |} in
  let directive (t : Z) := "-c statement_timeout=5000" in
  let self :=
    {| postgres_url := "postgresql://a"; should_autocreate_tables := true;
       _engine := create_engine make_url "postgresql://a" "AUTOCOMMIT"
                    (Some NullPool) None ∅ None;
       _index_migration_cache := ∅ |} in
  connect_args (_engine (optimize_for_dagit directive make_url self 5000 3600)) !! "options"
  = Some "-c statement_timeout=5000 -c search_path=dagster".
Proof. vm_compute. reflexivity. Qed.

End Examples.

(* ===================================================================== *)
(** ** More about the key-value store *)
(* ===================================================================== *)

Section KeyValueStoreMore.
Import Sql RunStorage.

Variable KeyValueStoreTable : Schema.

Local Abbreviation kvs_set := (kvs_set KeyValueStoreTable).
Local Abbreviation kvs_upsert := (kvs_upsert KeyValueStoreTable).

Lemma table_rows_lookup (w : World) (t : Schema) (tb : Table) :
  relations (database w) !! name t = Some tb → table_rows w t = rows tb.
Proof. intros H. unfold table_rows. by rewrite H. Qed.

(** Whatever it is given, [kvs_set] removes no row and moves none, and in
    the rows it finds it changes no column but [value]. *)
Theorem kvs_set_rewrites_values_only
    (self : PostgresRunStorage) (pairs : Py.Object) (w : World) (i : nat) (r : Row) :
  table_rows w KeyValueStoreTable !! i = Some r →
  ∃ r', table_rows (kvs_set self pairs w).2 KeyValueStoreTable !! i = Some r' ∧
        ∀ c, c ≠ "value" → r' !! c = r !! c.
Proof.
  intros Hi.
  destruct (mapping_param_cases pairs) as [[kvs ->]|[Hcheck _]].
  - rewrite kvs_set_dict, conn_execute_unfold.
    destruct (sendable _); [|by exists r].
    destruct (execute _ _) as [e|rel'] eqn:Hexec; [by exists r|].
    destruct (execute_upsert_inv _ _ _ _ (kvs_upsert_on_conflict KeyValueStoreTable kvs) Hexec)
      as (tb & rs' & Htb & Hrun & ->).
    rewrite kvs_upsert_table in Htb.
    rewrite (table_rows_lookup w _ tb Htb) in Hi.
    destruct (upsert_rows_preserves _ _ _ _ _ _ Hrun i r Hi) as (r' & Hr' & Hkeep).
    exists r'. unfold table_rows; cbn [snd database relations].
    rewrite kvs_upsert_table, lookup_insert_eq. cbn [rows]. split; [done|].
    intros c Hc. apply Hkeep. cbn. by intros ->%list_elem_of_singleton.
  - unfold RunStorage.kvs_set. rewrite Hcheck. by exists r.
Qed.

(** Positions under keys that a mapping does not name, before and after. *)
Lemma kvs_set_frame_stored (self : PostgresRunStorage) (kvs : list (string * string))
    (w w' : World) (k : string) (r : Row) :
  keyed_table w KeyValueStoreTable "key" ["key"; "value"] →
  kvs_set self (Py.str_mapping kvs) w = (inr tt, w') →
  k ∉ kvs.*1 →
  stored_under (table_rows w KeyValueStoreTable) "key" (VText k) r →
  stored_under (table_rows w' KeyValueStoreTable) "key" (VText k) r.
Proof.
  intros _ Hrun Hk (i & Hi & Hrk & Honly).
  rewrite kvs_set_dict, conn_execute_unfold in Hrun.
  destruct (sendable _); [|done].
  destruct (execute _ _) as [e|rel'] eqn:Hexec; [done|]. injection Hrun as <-.
  destruct (kvs_upsert_frame _ kvs _ rel' Hexec) as (tb & rs' & Htb & -> & Hframe).
  rewrite (table_rows_lookup w _ tb Htb) in Hi, Honly.
  unfold table_rows; cbn [database relations]. rewrite lookup_insert_eq. cbn [rows].
  exists i. split; [by apply (Hframe i r k)|]. split; [done|].
  intros j r2 Hj Hk2. apply (Honly j r2); [|done]. by apply (Hframe j r2 k).
Qed.

Lemma storable_limits (w w' : World) (kv : string * string) :
  table_limits w' KeyValueStoreTable = table_limits w KeyValueStoreTable →
  storable w KeyValueStoreTable kv → storable w' KeyValueStoreTable kv.
Proof. intros E H. unfold storable. by rewrite E. Qed.

(** Two writes in a row, of texts that hold no NUL character and respect
    the length bounds of the table: a key of the second mapping holds the
    second mapping's value, and a key only the first mapping names still
    holds the first mapping's value. *)
Theorem kvs_set_then_kvs_set
    (self1 self2 : PostgresRunStorage) (kvs1 kvs2 : list (string * string)) (w : World) :
  keyed_table w KeyValueStoreTable "key" ["key"; "value"] →
  Forall (storable w KeyValueStoreTable) (kvs1 ++ kvs2) →
  NoDup kvs1.*1 → kvs1 ≠ [] → NoDup kvs2.*1 → kvs2 ≠ [] →
  ∃ w1 w2,
    kvs_set self1 (Py.str_mapping kvs1) w = (inr tt, w1) ∧
    kvs_set self2 (Py.str_mapping kvs2) w1 = (inr tt, w2) ∧
    (∀ k v, (k, v) ∈ kvs2 →
       ∃ r, stored_under (table_rows w2 KeyValueStoreTable) "key" (VText k) r ∧
            r !! "value" = Some (VText v)) ∧
    (∀ k v, (k, v) ∈ kvs1 → k ∉ kvs2.*1 →
       ∃ r, stored_under (table_rows w2 KeyValueStoreTable) "key" (VText k) r ∧
            r !! "value" = Some (VText v)).
Proof.
  intros Htable [Hst1 Hst2]%Forall_app Hnd1 Hne1 Hnd2 Hne2.
  destruct (kvs_set_dict_stores KeyValueStoreTable self1 kvs1 w Htable Hst1 Hnd1 Hne1)
    as (w1 & Hrun1 & _ & Htable1 & Hlimits1 & Hstored1).
  destruct (kvs_set_dict_stores KeyValueStoreTable self2 kvs2 w1 Htable1) with (2 := Hnd2)
    as (w2 & Hrun2 & _ & _ & _ & Hstored2); [|done|].
  { eapply Forall_impl; [exact Hst2|]. intros kv. by apply storable_limits. }
  exists w1, w2. split; [done|]. split; [done|]. split; [done|].
  intros k v Hkv Hk. destruct (Hstored1 k v Hkv) as (r & Hr & Hv).
  exists r. split; [|done].
  by apply (kvs_set_frame_stored self2 kvs2 w1 w2 k r).
Qed.

(** Writing the same mapping again (its texts holding no NUL character and
    respecting the length bounds of the table) leaves the database as the
    first write left it. *)
Theorem kvs_set_idempotent
    (self1 self2 : PostgresRunStorage) (kvs : list (string * string)) (w : World) :
  keyed_table w KeyValueStoreTable "key" ["key"; "value"] →
  Forall (storable w KeyValueStoreTable) kvs →
  NoDup kvs.*1 → kvs ≠ [] →
  ∃ w1 w2,
    kvs_set self1 (Py.str_mapping kvs) w = (inr tt, w1) ∧
    kvs_set self2 (Py.str_mapping kvs) w1 = (inr tt, w2) ∧
    database w2 = database w1.
Proof.
  intros Htable Hst Hnd Hne.
  destruct (kvs_set_dict_stores KeyValueStoreTable self1 kvs w Htable Hst Hnd Hne)
    as (w1 & Hrun1 & _ & (tb & Htb & Hidx & Hnn & Huniq) & Hlimits & Hstored).
  assert (Forall (storable w1 KeyValueStoreTable) kvs) as Hst1.
  { eapply Forall_impl; [exact Hst|]. intros kv. by apply storable_limits. }
  destruct (storable_table KeyValueStoreTable w1 tb kvs Htb Hst1) as [Hnul Hfits].
  exists w1. rewrite Hrun1, kvs_set_dict, conn_execute_unfold.
  rewrite (kvs_upsert_sendable KeyValueStoreTable kvs Hnul).
  assert (execute (kvs_upsert kvs) (relations (database w1)) = inr (relations (database w1)))
    as ->.
  { unfold execute. rewrite kvs_upsert_table, Htb, kvs_upsert_on_conflict.
    cbn [index_elements kvs_conflict]. rewrite Hidx.
    rewrite bool_decide_eq_true_2 by (apply list_elem_of_singleton; done).
    rewrite kvs_upsert_values by done. fold kvs_conflict.
    rewrite (upsert_rows_again (schema tb) kvs_conflict "key" eq_refl Hidx kvs_keep).
    - f_equal. apply insert_id. rewrite Htb. by destruct tb.
    - done.
    - rewrite kv_rows_keys. by apply kv_keys_NoDup.
    - by apply kv_rows_admissible.
    - apply Forall_fmap, Forall_forall. intros [k v] Hkv. cbv [compose].
      destruct (Hstored k v Hkv) as (r & (i & Hi & Hrk & _) & Hv).
      rewrite (table_rows_lookup w1 _ tb Htb) in Hi.
      exists i, r. split; [done|]. rewrite kv_row_key. split; [done|].
      cbn [set_ kvs_conflict]. rewrite kv_assign. by apply insert_id.
    - intros i Hi. by apply elem_of_nil in Hi. }
  eexists. split; [done|]. split; [done|]. by destruct (database w1).
Qed.

End KeyValueStoreMore.

(* ===================================================================== *)
(** ** More about daemon heartbeats *)
(* ===================================================================== *)

Section HeartbeatsMore.
Import Sql RunStorage.

Context {float : Type}.
Variable utc_datetime_from_timestamp : float → Error + Z.
Variable DaemonHeartbeatsTable : Schema.
Variable serialize_value : @DaemonHeartbeat float → string.

Local Abbreviation add_daemon_heartbeat :=
  (add_daemon_heartbeat utc_datetime_from_timestamp DaemonHeartbeatsTable serialize_value).
Local Abbreviation add_daemon_heartbeats :=
  (add_daemon_heartbeats utc_datetime_from_timestamp DaemonHeartbeatsTable serialize_value).
Local Abbreviation heartbeat_row := (heartbeat_row serialize_value).
Local Abbreviation heartbeat_conflict := (heartbeat_conflict serialize_value).
Local Abbreviation heartbeat_upsert :=
  (heartbeat_upsert DaemonHeartbeatsTable serialize_value).
Local Abbreviation reflects := (reflects utc_datetime_from_timestamp serialize_value).
Local Abbreviation deliverable :=
  (deliverable utc_datetime_from_timestamp DaemonHeartbeatsTable serialize_value).

(** A heartbeat removes no row and moves none, and in the rows it finds it
    changes no column but [timestamp], [daemon_id] and [body]: the daemon
    type of every row, and any column the statement does not know of, stay. *)
Theorem add_daemon_heartbeat_rewrites_three_columns
    (self : PostgresRunStorage) (hb : DaemonHeartbeat) (w : World) (i : nat) (r : Row) :
  table_rows w DaemonHeartbeatsTable !! i = Some r →
  ∃ r', table_rows (add_daemon_heartbeat self hb w).2 DaemonHeartbeatsTable !! i = Some r' ∧
        ∀ c, c ∉ ["timestamp"; "daemon_id"; "body"] → r' !! c = r !! c.
Proof.
  intros Hi. rewrite add_daemon_heartbeat_unfold.
  destruct (utc_datetime_from_timestamp (timestamp hb)) as [e|ts]; [by exists r|].
  rewrite conn_execute_unfold. destruct (sendable _); [|by exists r].
  destruct (execute _ _) as [e|rel'] eqn:Hexec; [by exists r|].
  destruct (execute_upsert_inv (heartbeat_upsert ts hb) (heartbeat_conflict ts hb) _ _
              eq_refl Hexec)
    as (tb & rs' & Htb & Hrun & ->).
  cbn [table RunStorage.heartbeat_upsert] in Htb.
  rewrite (table_rows_lookup w _ tb Htb) in Hi.
  destruct (upsert_rows_preserves _ _ _ _ _ _ Hrun i r Hi) as (r' & Hr' & Hkeep).
  exists r'. unfold table_rows; cbn [snd database relations table RunStorage.heartbeat_upsert].
  rewrite lookup_insert_eq. cbn [rows]. split; [done|].
  intros c Hc. by apply Hkeep.
Qed.

(** A heartbeat the driver and the table take leaves the rows of every
    other daemon type where and as they are, and touches no other table. *)
Theorem add_daemon_heartbeat_leaves_other_types
    (self : PostgresRunStorage) (hb : DaemonHeartbeat) (w : World) :
  keyed_table w DaemonHeartbeatsTable "daemon_type" heartbeat_columns →
  deliverable w hb →
  ∃ w',
    add_daemon_heartbeat self hb w = (inr tt, w') ∧
    (∀ j r0, r0 !! "daemon_type" ≠ Some (VText (daemon_type hb)) →
       table_rows w' DaemonHeartbeatsTable !! j = Some r0 ↔
       table_rows w DaemonHeartbeatsTable !! j = Some r0) ∧
    (∀ t, t ≠ name DaemonHeartbeatsTable →
       relations (database w') !! t = relations (database w) !! t) ∧
    migration_markers (database w') = migration_markers (database w).
Proof.
  intros Htable Hhb.
  destruct (add_daemon_heartbeat_once utc_datetime_from_timestamp DaemonHeartbeatsTable
              serialize_value self hb w Htable Hhb)
    as (ts & w' & Hts & Hrun & _ & _ & _ & _ & Hframe).
  exists w'. split; [done|]. split; [done|].
  rewrite add_daemon_heartbeat_unfold, Hts, conn_execute_unfold in Hrun.
  destruct (sendable _); [|done].
  destruct (execute _ _) as [e|rel'] eqn:Hexec; [done|]. injection Hrun as <-.
  split; [|done]. intros t Ht. cbn.
  by apply (execute_other_tables _ _ _ t Hexec).
Qed.

(** The same heartbeat sent again leaves the database as the first sending
    left it. *)
Theorem add_daemon_heartbeat_idempotent
    (self1 self2 : PostgresRunStorage) (hb : DaemonHeartbeat) (w : World) :
  keyed_table w DaemonHeartbeatsTable "daemon_type" heartbeat_columns →
  deliverable w hb →
  ∃ w1 w2,
    add_daemon_heartbeat self1 hb w = (inr tt, w1) ∧
    add_daemon_heartbeat self2 hb w1 = (inr tt, w2) ∧
    database w2 = database w1.
Proof.
  intros Htable Hhb.
  destruct (add_daemon_heartbeat_once utc_datetime_from_timestamp DaemonHeartbeatsTable
              serialize_value self1 hb w Htable Hhb)
    as (ts & w1 & Hts & Hrun1 & _ & (tb & Htb & Hidx & Hnn & Huniq) & Hlimits &
        (r & Hstored & Hr) & _).
  apply (deliverable_limits _ _ _ w w1 hb Hlimits) in Hhb.
  destruct Hhb as (ts' & Hts' & Htype & Hid & Hbody & Hfits).
  assert (ts' = ts) as -> by congruence.
  unfold table_limits in Hfits. rewrite Htb in Hfits.
  exists w1. rewrite Hrun1, add_daemon_heartbeat_unfold, Hts, conn_execute_unfold.
  rewrite (heartbeat_upsert_sendable DaemonHeartbeatsTable serialize_value ts hb) by done.
  assert (execute (heartbeat_upsert ts hb) (relations (database w1)) =
          inr (relations (database w1))) as ->.
  { unfold execute. cbn [table on_conflict values RunStorage.heartbeat_upsert].
    rewrite Htb. cbn [index_elements RunStorage.heartbeat_conflict]. rewrite Hidx.
    rewrite bool_decide_eq_true_2 by (apply list_elem_of_singleton; done).
    fold (heartbeat_conflict ts hb).
    rewrite (upsert_rows_again (schema tb) (heartbeat_conflict ts hb) "daemon_type"
               eq_refl Hidx (heartbeat_keep serialize_value ts hb)).
    - f_equal. apply insert_id. rewrite Htb. by destruct tb.
    - done.
    - apply NoDup_singleton.
    - apply Forall_singleton. by apply heartbeat_row_admissible.
    - apply Forall_singleton. destruct Hstored as (i & Hi & Hrk & _).
      rewrite (table_rows_lookup w1 _ tb Htb) in Hi.
      exists i, r. split; [done|]. rewrite heartbeat_row_type. split; [done|].
      rewrite heartbeat_assign. destruct Hr as ((ts2 & Hts2 & Hstamp) & Hrid & Hrbody).
      assert (ts2 = ts) as -> by congruence.
      rewrite (insert_id r "timestamp") by done.
      destruct (daemon_id hb) as [d|]; cbn [fmap option_fmap option_map] in Hrid.
      + rewrite (insert_id r "daemon_id") by done. by apply insert_id.
      + rewrite (delete_id r "daemon_id") by done. by apply insert_id.
    - intros i Hi. by apply elem_of_nil in Hi. }
  eexists. split; [done|]. split; [done|]. by destruct (database w1).
Qed.

(** The daemon types of the rows, in table order. *)
Local Abbreviation reported w :=
  ((λ r : Row, r !! "daemon_type") <$> table_rows w DaemonHeartbeatsTable).

Lemma add_daemon_heartbeat_types (self : PostgresRunStorage) (hb : DaemonHeartbeat)
    (w : World) :
  keyed_table w DaemonHeartbeatsTable "daemon_type" heartbeat_columns →
  deliverable w hb →
  ∃ w',
    add_daemon_heartbeat self hb w = (inr tt, w') ∧
    keyed_table w' DaemonHeartbeatsTable "daemon_type" heartbeat_columns ∧
    table_limits w' DaemonHeartbeatsTable = table_limits w DaemonHeartbeatsTable ∧
    reported w' =
      if decide (Some (VText (daemon_type hb)) ∈ reported w)
      then reported w
      else reported w ++ [Some (VText (daemon_type hb))].
Proof.
  intros (tb & Htb & Hidx & Hnn & Huniq) (ts & Hts & Htype & Hid & Hbody & Hfits).
  unfold table_limits in Hfits. rewrite Htb in Hfits.
  pose proof (heartbeat_row_admissible serialize_value (schema tb) ts hb Hnn Hfits) as Hadm.
  destruct (upsert_rows_one_keys (schema tb) (heartbeat_conflict ts hb) "daemon_type"
              eq_refl Hidx (heartbeat_keep serialize_value ts hb)
              (heartbeat_row ts hb) (rows tb) Huniq Hadm)
    as (rs' & Hrun & Huniq' & Hkeys).
  assert (execute (heartbeat_upsert ts hb) (relations (database w)) =
          inr (<[name DaemonHeartbeatsTable := {| schema := schema tb; rows := rs' |}]>
                 (relations (database w)))) as Hexec.
  { unfold execute. cbn [table on_conflict values RunStorage.heartbeat_upsert].
    rewrite Htb. cbn [index_elements RunStorage.heartbeat_conflict]. rewrite Hidx.
    rewrite bool_decide_eq_true_2 by (apply list_elem_of_singleton; done).
    fold (heartbeat_conflict ts hb). by rewrite Hrun. }
  rewrite add_daemon_heartbeat_unfold, Hts, conn_execute_unfold.
  rewrite (heartbeat_upsert_sendable DaemonHeartbeatsTable serialize_value ts hb), Hexec
    by done.
  eexists. split; [done|].
  unfold keyed_table, table_rows, table_limits; cbn [database relations].
  rewrite lookup_insert_eq, Htb. cbn [rows schema]. split; [|split; [done|]].
  - eexists. split; [done|]. by cbn.
  - rewrite Hkeys. by rewrite heartbeat_row_type.
Qed.

Lemma add_daemon_heartbeats_types
    (calls : list (PostgresRunStorage * DaemonHeartbeat)) :
  ∀ w,
  keyed_table w DaemonHeartbeatsTable "daemon_type" heartbeat_columns →
  Forall (λ c, deliverable w c.2) calls →
  NoDup (reported w) →
  ∃ w',
    add_daemon_heartbeats calls w = (inr tt, w') ∧
    NoDup (reported w') ∧
    ∀ k, k ∈ reported w' ↔
         k ∈ reported w ∨ k ∈ (λ c, Some (VText (daemon_type c.2))) <$> calls.
Proof.
  induction calls as [|[self hb] calls IH]; intros w Htable Hall Hnd.
  - exists w. split; [done|]. split; [done|]. intros k. rewrite fmap_nil, elem_of_nil. tauto.
  - apply Forall_cons in Hall as [Hhb Hall].
    destruct (add_daemon_heartbeat_types self hb w Htable Hhb)
      as (w1 & Hrun1 & Htable1 & Hlimits1 & Hkeys).
    destruct (IH w1 Htable1) as (w' & Hrun & Hnd' & Hin).
    { eapply Forall_impl; [exact Hall|]. intros c.
      by apply (deliverable_limits _ _ _ w w1). }
    { rewrite Hkeys. case_decide; [done|].
      apply NoDup_app. split; [done|]. split; [|apply NoDup_singleton].
      by intros k Hk ->%list_elem_of_singleton. }
    exists w'. cbn [RunStorage.add_daemon_heartbeats]. unfold bind at 1.
    rewrite Hrun1. split; [done|]. split; [done|].
    intros k. rewrite Hin, Hkeys, fmap_cons, elem_of_cons. cbn [snd].
    case_decide as Hk.
    + split; [tauto|]. intros [?|[->|?]]; tauto.
    + rewrite elem_of_app, list_elem_of_singleton. tauto.
Qed.

(** Starting from the empty table, any sequence of heartbeats the driver
    and the table take leaves exactly one row for each daemon type that
    reported, and no other row. *)
Theorem add_daemon_heartbeats_one_row_per_type
    (calls : list (PostgresRunStorage * DaemonHeartbeat)) (w : World) :
  keyed_table w DaemonHeartbeatsTable "daemon_type" heartbeat_columns →
  Forall (λ c, deliverable w c.2) calls →
  table_rows w DaemonHeartbeatsTable = [] →
  ∃ w',
    add_daemon_heartbeats calls w = (inr tt, w') ∧
    reported w' ≡ₚ
      (λ ty, Some (VText ty)) <$> remove_dups ((λ c, daemon_type c.2) <$> calls).
Proof.
  intros Htable Hall Hempty.
  destruct (add_daemon_heartbeats_types calls w Htable Hall) as (w' & Hrun & Hnd & Hin).
  { rewrite Hempty. constructor. }
  exists w'. split; [done|]. apply NoDup_Permutation; [done| |].
  - apply NoDup_fmap_2; [by intros ?? [=] | apply NoDup_remove_dups].
  - intros k. rewrite Hin, Hempty, fmap_nil, elem_of_nil.
    rewrite !list_elem_of_fmap. split.
    + intros [[]|(c & -> & Hc)]. exists (daemon_type c.2). split; [done|].
      apply elem_of_remove_dups, list_elem_of_fmap. by exists c.
    + intros (ty & -> & (c & -> & Hc)%elem_of_remove_dups%list_elem_of_fmap).
      right. by exists c.
Qed.

End HeartbeatsMore.


(* ===================================================================== *)
(** ** More about the migration index cache *)
(* ===================================================================== *)

Section IndexMigrationCacheMore.
Import Sql RunStorage Maintenance.

(** The cache belongs to the handle: a mark made through another handle
    reaches the database but not this handle's cached [false]. *)
Theorem mark_on_another_handle_is_not_seen
    (self other : PostgresRunStorage) (n : string) (w : World) :
  _index_migration_cache self !! n = None →
  persisted w n = false →
  ∃ self1 w1 other1 w2,
    has_built_index self n w = (inr (false, self1), w1) ∧
    mark_index_built other n w1 = (inr other1, w2) ∧
    persisted w2 n = true ∧
    has_built_index self1 n w2 = (inr (false, self1), w2).
Proof.
  intros Hmiss Hfalse.
  destruct (mark_index_built_unfold other n (logged w (SelectMigrationMarker n)))
    as (other1 & Hmark & _).
  eexists _, _, other1, _. split.
  { rewrite (has_built_index_miss _ _ _ Hmiss), Hfalse. done. }
  split; [exact Hmark|]. split.
  - unfold persisted; cbn. by rewrite lookup_insert_eq.
  - apply has_built_index_hit. cbn. apply lookup_insert_eq.
Qed.

Lemma has_built_index_database (self : PostgresRunStorage) (n : string) (w : World) :
  database (has_built_index self n w).2 = database w.
Proof.
  destruct (_index_migration_cache self !! n) as [b|] eqn:Hn.
  - by rewrite (has_built_index_hit _ _ _ _ Hn).
  - by rewrite (has_built_index_miss _ _ _ Hn).
Qed.

Lemma evolves_keeps_cached_true (st st' : PostgresRunStorage * World) :
  evolves st st' → cached_true_is_built st → cached_true_is_built st'.
Proof.
  unfold cached_true_is_built.
  intros [self n w b self' w' Hrun|self n w self' w' Hrun
         |self other n w r w' Hrun|self other n w r w' Hrun] Hinv m; cbn [fst snd] in *.
  - destruct (_index_migration_cache self !! n) as [bn|] eqn:Hn.
    + rewrite (has_built_index_hit _ _ _ _ Hn) in Hrun. injection Hrun as <- <- <-.
      apply Hinv.
    + rewrite (has_built_index_miss _ _ _ Hn) in Hrun. injection Hrun as <- <- <-.
      cbn. destruct (decide (n = m)) as [->|Hne].
      * rewrite lookup_insert_eq. intros [= Hb]. exact Hb.
      * rewrite lookup_insert_ne by done. apply Hinv.
  - destruct (mark_index_built_unfold self n w) as (self2 & Hmark & Hcache & _).
    rewrite Hmark in Hrun. injection Hrun as <- <-. rewrite Hcache.
    destruct (decide (n = m)) as [->|Hne].
    + by rewrite lookup_delete_eq.
    + rewrite lookup_delete_ne by done. intros Hm%Hinv.
      unfold persisted in *; cbn. by rewrite lookup_insert_ne.
  - intros Hm%Hinv. unfold persisted in *.
    pose proof (has_built_index_database other n w) as Hdb.
    rewrite Hrun in Hdb. cbn in Hdb. by rewrite Hdb.
  - intros Hm%Hinv.
    destruct (mark_index_built_unfold other n w) as (other2 & Hmark & _).
    rewrite Hmark in Hrun. injection Hrun as _ <-.
    unfold persisted in *; cbn.
    destruct (decide (n = m)) as [->|Hne].
    + by rewrite lookup_insert_eq.
    + by rewrite lookup_insert_ne.
Qed.

(** A handle that started with an empty cache never answers [true] for a
    migration the database does not have as built, however many questions
    and marks it and the other handles of the database have made. *)
Theorem has_built_index_true_is_sound
    (self : PostgresRunStorage) (w : World) (self' : PostgresRunStorage) (w' : World)
    (n : string) (self'' : PostgresRunStorage) (w'' : World) :
  _index_migration_cache self = ∅ →
  rtc evolves (self, w) (self', w') →
  has_built_index self' n w' = (inr (true, self''), w'') →
  persisted w' n = true.
Proof.
  intros Hempty Hpath Hanswer.
  assert (cached_true_is_built (self', w')) as Hinv.
  { assert (cached_true_is_built (self, w)) as Hstart.
    { intros m. cbn. by rewrite Hempty, lookup_empty. }
    revert Hstart. generalize (self, w) (self', w') Hpath. clear.
    induction 1 as [|st1 st2 st3 Hstep _ IH]; [done|].
    intros H. by apply IH, (evolves_keeps_cached_true st1 st2). }
  destruct (_index_migration_cache self' !! n) as [b|] eqn:Hn.
  - rewrite (has_built_index_hit _ _ _ _ Hn) in Hanswer. injection Hanswer as -> _ _.
    by apply (Hinv n).
  - rewrite (has_built_index_miss _ _ _ Hn) in Hanswer. by injection Hanswer as -> _ _.
Qed.

End IndexMigrationCacheMore.

(* ===================================================================== *)
(** ** More about connection options *)
(* ===================================================================== *)

Section ConnectionOptionsMore.
Import Sql RunStorage.

Variable pg_statement_timeout : Z → string.
Variable make_url : string → URL.

Local Abbreviation optimize_for_dagit := (optimize_for_dagit pg_statement_timeout make_url).

(** Timeout directives do not pile up: on a handle whose engine was made
    from its own URL, switching a second time gives the handle that the
    second switch alone gives. *)
Theorem optimize_for_dagit_twice
    (self : PostgresRunStorage) (timeout1 recycle1 timeout2 recycle2 : Z) :
  url (_engine self) = make_url (postgres_url self) →
  optimize_for_dagit (optimize_for_dagit self timeout1 recycle1) timeout2 recycle2 =
  optimize_for_dagit self timeout2 recycle2.
Proof.
  intros Hurl. unfold RunStorage.optimize_for_dagit, with_engine, create_engine.
  cbn [_engine url postgres_url should_autocreate_tables _index_migration_cache].
  by rewrite Hurl.
Qed.

End ConnectionOptionsMore.

(* ===================================================================== *)
(** ** More about construction *)
(* ===================================================================== *)

Section BootstrapMore.
Import Sql RunStorage.

Variable head : string.
Variable RunStorageSqlMetadata : list Schema.

Local Abbreviation _init_db := (_init_db head RunStorageSqlMetadata).

(** The relations [create_all] leaves, and the table of the stamp. *)
Local Abbreviation created start :=
  (foldl (λ (acc : gmap string Table) s,
            match acc !! name s with
            | Some _ => acc
            | None => <[name s := {| schema := s; rows := [] |}]> acc
            end) start RunStorageSqlMetadata).
Local Abbreviation stamp :=
  {| schema := alembic_version_table; rows := [ {["version_num" := VText head]} ] |}.

Lemma _init_db_eq (self : PostgresRunStorage) (w : World) :
  _init_db self w =
    (inr tt,
     {| database :=
          {| relations := <["alembic_version" := stamp]> (created (relations (database w)));
             migration_markers := migration_markers (database w) |};
        round_trips := round_trips w ++ [CreateAll; StampAlembicRev] |}).
Proof.
  unfold RunStorage._init_db, connect, transaction, create_all, stamp_alembic_rev, bind, ret,
    round_trip, get_relations, put_relations; cbn. by rewrite <- app_assoc.
Qed.

(** A table [create_all] had to create has no rows. *)
Lemma create_all_new_empty (metadata : list Schema) :
  ∀ (rel : gmap string Table) (s : Schema),
  s ∈ metadata → rel !! name s = None →
  ∃ tb,
    foldl (λ rel s, match rel !! name s with
                    | Some _ => rel
                    | None => <[name s := {| schema := s; rows := [] |}]> rel
                    end) rel metadata !! name s = Some tb ∧
    rows tb = [].
Proof.
  induction metadata as [|s0 metadata IH]; intros rel s Hs Hnone.
  - by apply elem_of_nil in Hs.
  - cbn [foldl].
    destruct (decide (name s = name s0)) as [E|Hne].
    + rewrite <- E, Hnone.
      exists {| schema := s0; rows := [] |}. split; [|done].
      apply (create_all_fold metadata). by rewrite lookup_insert_eq.
    + apply elem_of_cons in Hs as [->|Hs]; [done|].
      apply IH; [done|]. destruct (rel !! name s0); [done|].
      by rewrite lookup_insert_ne.
Qed.

(** With every table there, [create_all] has nothing to do. *)
Lemma create_all_nothing_missing (metadata : list Schema) :
  ∀ rel : gmap string Table,
  (∀ s, s ∈ metadata → is_Some (rel !! name s)) →
  foldl (λ rel s, match rel !! name s with
                  | Some _ => rel
                  | None => <[name s := {| schema := s; rows := [] |}]> rel
                  end) rel metadata = rel.
Proof.
  induction metadata as [|s0 metadata IH]; intros rel Hall; [done|].
  cbn [foldl]. destruct (Hall s0) as [tb ->]; [by left|].
  apply IH. intros s Hs. apply Hall. by right.
Qed.

(** On a database that carries no stamp, or the stamp of the head
    revision, [_init_db] never wipes: a table found in the database is kept
    with its rows (the revision table apart, which takes the stamp); a table
    of the metadata that was missing is there afterwards, empty; the head
    revision is stamped. *)
Theorem _init_db_keeps_existing_tables (self : PostgresRunStorage) (w : World) :
  stamped_revision (database w) = None ∨
    stamped_revision (database w) = Some [ {["version_num" := VText head]} ] →
  ∃ w',
    _init_db self w = (inr tt, w') ∧
    (∀ t tb, t ≠ "alembic_version" →
       relations (database w) !! t = Some tb → relations (database w') !! t = Some tb) ∧
    (∀ s, s ∈ RunStorageSqlMetadata → name s ≠ "alembic_version" →
       relations (database w) !! name s = None →
       ∃ tb, relations (database w') !! name s = Some tb ∧ rows tb = []) ∧
    stamped_revision (database w') = Some [ {["version_num" := VText head]} ] ∧
    migration_markers (database w') = migration_markers (database w).
Proof.
  intros _.
  eexists. split; [apply _init_db_eq|]. cbn [database relations migration_markers].
  split; [|split; [|split; [|done]]].
  - intros t tb Ht Htb. rewrite lookup_insert_ne by done.
    by apply (create_all_fold RunStorageSqlMetadata).
  - intros s Hs Hne Hnone. rewrite lookup_insert_ne by done.
    by apply create_all_new_empty.
  - unfold stamped_revision; cbn. by rewrite lookup_insert_eq.
Qed.

(** On a database that carries no stamp, or the stamp of the head
    revision, [_init_db] can be retried: run again on its own result, it
    leaves the database as it is. *)
Theorem _init_db_idempotent (self self' : PostgresRunStorage) (w : World) :
  stamped_revision (database w) = None ∨
    stamped_revision (database w) = Some [ {["version_num" := VText head]} ] →
  ∃ w1 w2,
    _init_db self w = (inr tt, w1) ∧
    _init_db self' w1 = (inr tt, w2) ∧
    database w2 = database w1.
Proof.
  intros _.
  eexists _, _. split; [apply _init_db_eq|]. split; [apply _init_db_eq|].
  cbn [database relations migration_markers]. f_equal.
  rewrite create_all_nothing_missing.
  - apply insert_insert_eq.
  - intros s Hs. destruct (decide (name s = "alembic_version")) as [->|Hne].
    + by rewrite lookup_insert_eq.
    + rewrite lookup_insert_ne by done. by apply (create_all_fold RunStorageSqlMetadata).
Qed.

End BootstrapMore.

(* ===================================================================== *)
(** ** Writing without tables *)
(* ===================================================================== *)

Section WithoutTables.
Import Sql RunStorage.

Context {float : Type}.
Variable utc_datetime_from_timestamp : float → Error + Z.
Variable make_url : string → URL.
Variable head : string.
Variable RunStorageSqlMetadata : list Schema.
Variable DaemonHeartbeatsTable KeyValueStoreTable InstanceInfo : Schema.
Variable serialize_value : @DaemonHeartbeat float → string.
Variable migrate optimize : PostgresRunStorage → M PostgresRunStorage.

(** With autocreation off the constructor does not look at the database at
    all; on a database that lacks the tables the first write of either kind
    that the driver takes (texts without NUL characters, a timestamp that is
    a [datetime]) then raises, and changes nothing. *)
Theorem writes_without_tables
    (postgres_url : string) (w : World) (kvs : list (string * string))
    (hb : DaemonHeartbeat) :
  relations (database w) !! name KeyValueStoreTable = None →
  relations (database w) !! name DaemonHeartbeatsTable = None →
  Forall (storable w KeyValueStoreTable) kvs →
  deliverable utc_datetime_from_timestamp DaemonHeartbeatsTable serialize_value w hb →
  ∃ self ts,
    __init__ make_url head RunStorageSqlMetadata InstanceInfo migrate optimize
      postgres_url false w = (inr self, w) ∧
    kvs_set KeyValueStoreTable self (Py.str_mapping kvs) w =
      (inl UndefinedTable, logged w (Execute (kvs_upsert KeyValueStoreTable kvs))) ∧
    utc_datetime_from_timestamp (timestamp hb) = inr ts ∧
    add_daemon_heartbeat utc_datetime_from_timestamp DaemonHeartbeatsTable serialize_value
      self hb w =
      (inl UndefinedTable,
       logged w (Execute (heartbeat_upsert DaemonHeartbeatsTable serialize_value ts hb))).
Proof.
  intros Hkvs Hhb Hst (ts & Hts & Htype & Hid & Hbody & _).
  eexists _, ts. split; [reflexivity|]. split; [|split; [done|]].
  - rewrite kvs_set_dict, conn_execute_unfold, kvs_upsert_sendable.
    + by rewrite execute_undefined_table.
    + eapply Forall_impl; [exact Hst|]. by intros kv (? & ? & _).
  - rewrite add_daemon_heartbeat_unfold, Hts, conn_execute_unfold.
    rewrite heartbeat_upsert_sendable by done.
    by rewrite execute_undefined_table.
Qed.

End WithoutTables.

(* ===================================================================== *)
(** ** The further statements on the example installation *)
(* ===================================================================== *)

Section MoreExamples.
Import Sql RunStorage Maintenance.

Local Abbreviation demo_add :=
  (add_daemon_heartbeat Demo.utc_datetime_from_timestamp Demo.daemon_heartbeats
     Demo.serialize_value).
Local Abbreviation demo_adds :=
  (add_daemon_heartbeats Demo.utc_datetime_from_timestamp Demo.daemon_heartbeats
     Demo.serialize_value).
Local Abbreviation demo_init :=
  (__init__ Demo.make_url "head" Demo.metadata Demo.instance_info Demo.migrate Demo.optimize).
Local Abbreviation demo_deliverable :=
  (deliverable Demo.utc_datetime_from_timestamp Demo.daemon_heartbeats Demo.serialize_value).

Lemma kvs_set_rewrites_values_only_witness :
  table_rows Demo.with_a0 Demo.kvs !! 0%nat = Some (kv_row ("a", "0")) ∧
  ∃ r', table_rows (kvs_set Demo.kvs Demo.handle (Py.str_mapping [("a", "1")])
                      Demo.with_a0).2 Demo.kvs !! 0%nat = Some r' ∧
        ∀ c, c ≠ "value" → r' !! c = kv_row ("a", "0") !! c.
Proof.
  split; [reflexivity|].
  exact (kvs_set_rewrites_values_only Demo.kvs Demo.handle (Py.str_mapping [("a", "1")])
           Demo.with_a0 0 (kv_row ("a", "0")) eq_refl).
Defined.

Lemma kvs_set_then_kvs_set_witness :
  keyed_table Demo.with_a0 Demo.kvs "key" ["key"; "value"] ∧
  Forall (storable Demo.with_a0 Demo.kvs) ([("a", "1"); ("b", "2")] ++ [("b", "3")]) ∧
  NoDup [("a", "1"); ("b", "2")].*1 ∧ [("a", "1"); ("b", "2")] ≠ [] ∧
  NoDup [("b", "3")].*1 ∧ [("b", "3")] ≠ [] ∧
  ∃ w1 w2,
    kvs_set Demo.kvs Demo.handle (Py.str_mapping [("a", "1"); ("b", "2")]) Demo.with_a0
      = (inr tt, w1) ∧
    kvs_set Demo.kvs DemoMore.other_handle (Py.str_mapping [("b", "3")]) w1 = (inr tt, w2) ∧
    (∀ k v, (k, v) ∈ [("b", "3")] →
       ∃ r, stored_under (table_rows w2 Demo.kvs) "key" (VText k) r ∧
            r !! "value" = Some (VText v)) ∧
    (∀ k v, (k, v) ∈ [("a", "1"); ("b", "2")] → k ∉ [("b", "3")].*1 →
       ∃ r, stored_under (table_rows w2 Demo.kvs) "key" (VText k) r ∧
            r !! "value" = Some (VText v)).
Proof.
  assert (NoDup [("a", "1"); ("b", "2")].*1) as Hnd1
    by (refine (bool_decide_unpack _ _); vm_compute; exact I).
  assert (NoDup [("b", "3")].*1) as Hnd2
    by (refine (bool_decide_unpack _ _); vm_compute; exact I).
  assert ([("a", "1"); ("b", "2")] ≠ ([] : list (string * string))) as Hne1 by done.
  assert ([("b", "3")] ≠ ([] : list (string * string))) as Hne2 by done.
  split; [exact with_a0_keyed|].
  split; [exact (demo_storable ([("a", "1"); ("b", "2")] ++ [("b", "3")]) eq_refl)|].
  split; [exact Hnd1|]. split; [exact Hne1|].
  split; [exact Hnd2|]. split; [exact Hne2|].
  exact (kvs_set_then_kvs_set Demo.kvs Demo.handle DemoMore.other_handle
           [("a", "1"); ("b", "2")] [("b", "3")] Demo.with_a0
           with_a0_keyed
           (demo_storable ([("a", "1"); ("b", "2")] ++ [("b", "3")]) eq_refl)
           Hnd1 Hne1 Hnd2 Hne2).
Defined.

Lemma kvs_set_idempotent_witness :
  keyed_table Demo.with_a0 Demo.kvs "key" ["key"; "value"] ∧
  Forall (storable Demo.with_a0 Demo.kvs) [("a", "1"); ("b", "2")] ∧
  NoDup [("a", "1"); ("b", "2")].*1 ∧ [("a", "1"); ("b", "2")] ≠ [] ∧
  ∃ w1 w2,
    kvs_set Demo.kvs Demo.handle (Py.str_mapping [("a", "1"); ("b", "2")]) Demo.with_a0
      = (inr tt, w1) ∧
    kvs_set Demo.kvs DemoMore.other_handle (Py.str_mapping [("a", "1"); ("b", "2")]) w1
      = (inr tt, w2) ∧
    database w2 = database w1.
Proof.
  assert (NoDup [("a", "1"); ("b", "2")].*1) as Hnd
    by (refine (bool_decide_unpack _ _); vm_compute; exact I).
  assert ([("a", "1"); ("b", "2")] ≠ ([] : list (string * string))) as Hne by done.
  split; [exact with_a0_keyed|].
  split; [exact (demo_storable [("a", "1"); ("b", "2")] eq_refl)|].
  split; [exact Hnd|]. split; [exact Hne|].
  exact (kvs_set_idempotent Demo.kvs Demo.handle DemoMore.other_handle
           [("a", "1"); ("b", "2")] Demo.with_a0 with_a0_keyed
           (demo_storable [("a", "1"); ("b", "2")] eq_refl) Hnd Hne).
Defined.

Lemma with_sensor_row :
  table_rows DemoMore.with_sensor Demo.daemon_heartbeats !! 0%nat = Some DemoMore.sensor_row.
Proof. vm_compute. reflexivity. Qed.

(** The example installation after the first sensor heartbeat: the table
    holds the one row of the sensor daemon. *)
Lemma with_sensor_heartbeats :
  keyed_table DemoMore.with_sensor Demo.daemon_heartbeats "daemon_type" heartbeat_columns.
Proof.
  exists {| schema := Demo.daemon_heartbeats; rows := [DemoMore.sensor_row] |}.
  split; [vm_compute; reflexivity|]. split; [reflexivity|]. split.
  - intros c Hc. cbn in Hc. unfold heartbeat_columns.
    apply elem_of_cons in Hc as [->|Hc]; [by apply elem_of_cons; right; left|].
    apply list_elem_of_singleton in Hc as ->. by left.
  - apply unique_on_singleton.
Qed.

Lemma beat3_deliverable : demo_deliverable DemoMore.with_sensor DemoMore.beat3.
Proof. exists 140000000. by vm_compute. Qed.

Lemma add_daemon_heartbeat_rewrites_three_columns_witness :
  table_rows DemoMore.with_sensor Demo.daemon_heartbeats !! 0%nat = Some DemoMore.sensor_row ∧
  ∃ r', table_rows (demo_add Demo.handle Demo.beat2 DemoMore.with_sensor).2
          Demo.daemon_heartbeats !! 0%nat = Some r' ∧
        ∀ c, c ∉ ["timestamp"; "daemon_id"; "body"] → r' !! c = DemoMore.sensor_row !! c.
Proof.
  split; [exact with_sensor_row|].
  exact (add_daemon_heartbeat_rewrites_three_columns Demo.utc_datetime_from_timestamp
           Demo.daemon_heartbeats Demo.serialize_value Demo.handle Demo.beat2
           DemoMore.with_sensor 0 DemoMore.sensor_row with_sensor_row).
Defined.

Lemma add_daemon_heartbeat_leaves_other_types_witness :
  keyed_table DemoMore.with_sensor Demo.daemon_heartbeats "daemon_type" heartbeat_columns ∧
  demo_deliverable DemoMore.with_sensor DemoMore.beat3 ∧
  ∃ w',
    demo_add Demo.handle DemoMore.beat3 DemoMore.with_sensor = (inr tt, w') ∧
    (∀ j r0, r0 !! "daemon_type" ≠ Some (VText (daemon_type DemoMore.beat3)) →
       table_rows w' Demo.daemon_heartbeats !! j = Some r0 ↔
       table_rows DemoMore.with_sensor Demo.daemon_heartbeats !! j = Some r0) ∧
    (∀ t, t ≠ name Demo.daemon_heartbeats →
       relations (database w') !! t = relations (database DemoMore.with_sensor) !! t) ∧
    migration_markers (database w') = migration_markers (database DemoMore.with_sensor).
Proof.
  split; [exact with_sensor_heartbeats|]. split; [exact beat3_deliverable|].
  exact (add_daemon_heartbeat_leaves_other_types Demo.utc_datetime_from_timestamp
           Demo.daemon_heartbeats Demo.serialize_value Demo.handle DemoMore.beat3
           DemoMore.with_sensor with_sensor_heartbeats beat3_deliverable).
Defined.

(** The scheduler's heartbeat is appended; the sensor's row stays in front. *)
Example sensor_row_stays :
  (λ r : Row, (r !! "daemon_type", r !! "daemon_id", r !! "timestamp")) <$>
    table_rows (demo_add Demo.handle DemoMore.beat3 DemoMore.with_sensor).2
      Demo.daemon_heartbeats =
  [(Some (VText "SENSOR"), Some (VText "d-1"), Some (VTimestamp 100000000));
   (Some (VText "SCHEDULER"), Some (VText "d-3"), Some (VTimestamp 140000000))].
Proof. vm_compute. reflexivity. Qed.

Lemma add_daemon_heartbeat_idempotent_witness :
  keyed_table Demo.initialized Demo.daemon_heartbeats "daemon_type" heartbeat_columns ∧
  demo_deliverable Demo.initialized Demo.beat1 ∧
  ∃ w1 w2,
    demo_add Demo.handle Demo.beat1 Demo.initialized = (inr tt, w1) ∧
    demo_add DemoMore.other_handle Demo.beat1 w1 = (inr tt, w2) ∧
    database w2 = database w1.
Proof.
  split; [exact initialized_heartbeats|]. split; [exact beat1_deliverable|].
  exact (add_daemon_heartbeat_idempotent Demo.utc_datetime_from_timestamp
           Demo.daemon_heartbeats Demo.serialize_value Demo.handle DemoMore.other_handle
           Demo.beat1 Demo.initialized initialized_heartbeats beat1_deliverable).
Defined.

Lemma three_beats_deliverable :
  Forall (λ c : PostgresRunStorage * DaemonHeartbeat, demo_deliverable Demo.initialized c.2)
         [(Demo.handle, Demo.beat1); (Demo.handle, DemoMore.beat3);
          (Demo.handle, Demo.beat2)].
Proof.
  repeat apply Forall_cons_2; [exact beat1_deliverable | | exact beat2_deliverable
                              | apply Forall_nil_2].
  exists 140000000. by vm_compute.
Qed.

Lemma add_daemon_heartbeats_one_row_per_type_witness :
  keyed_table Demo.initialized Demo.daemon_heartbeats "daemon_type" heartbeat_columns ∧
  Forall (λ c : PostgresRunStorage * DaemonHeartbeat, demo_deliverable Demo.initialized c.2)
         [(Demo.handle, Demo.beat1); (Demo.handle, DemoMore.beat3);
          (Demo.handle, Demo.beat2)] ∧
  table_rows Demo.initialized Demo.daemon_heartbeats = [] ∧
  ∃ w',
    demo_adds [(Demo.handle, Demo.beat1); (Demo.handle, DemoMore.beat3);
               (Demo.handle, Demo.beat2)] Demo.initialized = (inr tt, w') ∧
    (λ r : Row, r !! "daemon_type") <$> table_rows w' Demo.daemon_heartbeats ≡ₚ
      (λ ty, Some (VText ty)) <$>
        remove_dups ((λ c : PostgresRunStorage * DaemonHeartbeat, daemon_type c.2) <$>
                       [(Demo.handle, Demo.beat1); (Demo.handle, DemoMore.beat3);
                        (Demo.handle, Demo.beat2)]).
Proof.
  split; [exact initialized_heartbeats|]. split; [exact three_beats_deliverable|].
  split; [reflexivity|].
  exact (add_daemon_heartbeats_one_row_per_type Demo.utc_datetime_from_timestamp
           Demo.daemon_heartbeats Demo.serialize_value
           [(Demo.handle, Demo.beat1); (Demo.handle, DemoMore.beat3);
            (Demo.handle, Demo.beat2)] Demo.initialized initialized_heartbeats
           three_beats_deliverable eq_refl).
Defined.

(** Three heartbeats of two daemon types leave two rows. *)
Example three_heartbeats_two_rows :
  (λ r : Row, (r !! "daemon_type", r !! "daemon_id")) <$>
    table_rows
      (demo_adds [(Demo.handle, Demo.beat1); (Demo.handle, DemoMore.beat3);
                  (Demo.handle, Demo.beat2)] Demo.initialized).2
      Demo.daemon_heartbeats =
  [(Some (VText "SENSOR"), Some (VText "d-2")); (Some (VText "SCHEDULER"), Some (VText "d-3"))].
Proof. vm_compute. reflexivity. Qed.

Lemma mark_on_another_handle_is_not_seen_witness :
  _index_migration_cache Demo.handle !! "run_partitions" = None ∧
  persisted Demo.initialized "run_partitions" = false ∧
  ∃ self1 w1 other1 w2,
    has_built_index Demo.handle "run_partitions" Demo.initialized
      = (inr (false, self1), w1) ∧
    mark_index_built DemoMore.other_handle "run_partitions" w1 = (inr other1, w2) ∧
    persisted w2 "run_partitions" = true ∧
    has_built_index self1 "run_partitions" w2 = (inr (false, self1), w2).
Proof.
  split; [reflexivity|]. split; [reflexivity|].
  exact (mark_on_another_handle_is_not_seen Demo.handle DemoMore.other_handle
           "run_partitions" Demo.initialized eq_refl eq_refl).
Defined.

Lemma demo_path : rtc evolves (Demo.handle, Demo.initialized) DemoMore.after_mark.
Proof.
  apply rtc_once.
  apply (evolves_mark Demo.handle "run_partitions" Demo.initialized
           DemoMore.after_mark.1 DemoMore.after_mark.2).
  vm_compute. reflexivity.
Qed.

Lemma demo_answer :
  has_built_index DemoMore.after_mark.1 "run_partitions" DemoMore.after_mark.2 =
  (inr (true, DemoMore.after_question.1), DemoMore.after_question.2).
Proof. vm_compute. reflexivity. Qed.

Lemma has_built_index_true_is_sound_witness :
  _index_migration_cache Demo.handle = ∅ ∧
  rtc evolves (Demo.handle, Demo.initialized)
    (DemoMore.after_mark.1, DemoMore.after_mark.2) ∧
  has_built_index DemoMore.after_mark.1 "run_partitions" DemoMore.after_mark.2 =
    (inr (true, DemoMore.after_question.1), DemoMore.after_question.2) ∧
  persisted DemoMore.after_mark.2 "run_partitions" = true.
Proof.
  split; [reflexivity|]. split; [exact demo_path|]. split; [exact demo_answer|].
  exact (has_built_index_true_is_sound Demo.handle Demo.initialized
           DemoMore.after_mark.1 DemoMore.after_mark.2 "run_partitions"
           DemoMore.after_question.1 DemoMore.after_question.2
           eq_refl demo_path demo_answer).
Defined.

Lemma optimize_for_dagit_twice_witness :
  url (_engine Demo.handle) = Demo.make_url (postgres_url Demo.handle) ∧
  optimize_for_dagit DemoMore.pg_statement_timeout Demo.make_url
    (optimize_for_dagit DemoMore.pg_statement_timeout Demo.make_url Demo.handle 5000 3600)
    1000 60 =
  optimize_for_dagit DemoMore.pg_statement_timeout Demo.make_url Demo.handle 1000 60.
Proof.
  split; [reflexivity|].
  exact (optimize_for_dagit_twice DemoMore.pg_statement_timeout Demo.make_url
           Demo.handle 5000 3600 1000 60 eq_refl).
Defined.

Lemma _init_db_keeps_existing_tables_witness :
  (stamped_revision (database Demo.with_a0) = None ∨
   stamped_revision (database Demo.with_a0) = Some [ {["version_num" := VText "head"]} ]) ∧
  ∃ w',
    _init_db "head" Demo.metadata Demo.handle Demo.with_a0 = (inr tt, w') ∧
    (∀ t tb, t ≠ "alembic_version" →
       relations (database Demo.with_a0) !! t = Some tb →
       relations (database w') !! t = Some tb) ∧
    (∀ s, s ∈ Demo.metadata → name s ≠ "alembic_version" →
       relations (database Demo.with_a0) !! name s = None →
       ∃ tb, relations (database w') !! name s = Some tb ∧ rows tb = []) ∧
    stamped_revision (database w') = Some [ {["version_num" := VText "head"]} ] ∧
    migration_markers (database w') = migration_markers (database Demo.with_a0).
Proof.
  split; [left; reflexivity|].
  exact (_init_db_keeps_existing_tables "head" Demo.metadata Demo.handle Demo.with_a0
           (or_introl eq_refl)).
Defined.

Lemma _init_db_idempotent_witness :
  (stamped_revision (database Demo.fresh) = None ∨
   stamped_revision (database Demo.fresh) = Some [ {["version_num" := VText "head"]} ]) ∧
  ∃ w1 w2,
    _init_db "head" Demo.metadata Demo.handle Demo.fresh = (inr tt, w1) ∧
    _init_db "head" Demo.metadata DemoMore.other_handle w1 = (inr tt, w2) ∧
    database w2 = database w1.
Proof.
  split; [left; reflexivity|].
  exact (_init_db_idempotent "head" Demo.metadata Demo.handle DemoMore.other_handle
           Demo.fresh (or_introl eq_refl)).
Defined.

(** The key-value table held a row; [_init_db] keeps it. *)
Example init_db_keeps_the_row :
  (λ r : Row, (r !! "key", r !! "value")) <$>
    table_rows (_init_db "head" Demo.metadata Demo.handle Demo.with_a0).2 Demo.kvs =
  [(Some (VText "a"), Some (VText "0"))].
Proof. vm_compute. reflexivity. Qed.

Lemma fresh_storable : Forall (storable Demo.fresh Demo.kvs) [("a", "1")].
Proof. apply Forall_singleton. by vm_compute. Qed.

Lemma fresh_deliverable : demo_deliverable Demo.fresh Demo.beat1.
Proof. exists 100000000. by vm_compute. Qed.

Lemma writes_without_tables_witness :
  relations (database Demo.fresh) !! name Demo.kvs = None ∧
  relations (database Demo.fresh) !! name Demo.daemon_heartbeats = None ∧
  Forall (storable Demo.fresh Demo.kvs) [("a", "1")] ∧
  demo_deliverable Demo.fresh Demo.beat1 ∧
  ∃ self ts,
    demo_init "postgresql://a" false Demo.fresh = (inr self, Demo.fresh) ∧
    kvs_set Demo.kvs self (Py.str_mapping [("a", "1")]) Demo.fresh =
      (inl UndefinedTable, logged Demo.fresh (Execute (kvs_upsert Demo.kvs [("a", "1")]))) ∧
    Demo.utc_datetime_from_timestamp (timestamp Demo.beat1) = inr ts ∧
    demo_add self Demo.beat1 Demo.fresh =
      (inl UndefinedTable,
       logged Demo.fresh
         (Execute (heartbeat_upsert Demo.daemon_heartbeats Demo.serialize_value
                     ts Demo.beat1))).
Proof.
  split; [reflexivity|]. split; [reflexivity|].
  split; [exact fresh_storable|]. split; [exact fresh_deliverable|].
  exact (writes_without_tables Demo.utc_datetime_from_timestamp Demo.make_url "head"
           Demo.metadata Demo.daemon_heartbeats Demo.kvs Demo.instance_info
           Demo.serialize_value Demo.migrate Demo.optimize
           "postgresql://a" Demo.fresh [("a", "1")] Demo.beat1 eq_refl eq_refl
           fresh_storable fresh_deliverable).
Defined.

End MoreExamples.
